(** * dev-events: validation, normalisation and connection caching

    A shallow embedding of the data-access layer of the dev-events
    application:

    - [database/event.model.ts]   : the Event schema and its pre-save hook
      (slug derivation, date and time normalisation, array guards);
    - [database/booking.model.ts] : the Booking schema (e-mail validation)
      and its pre-save hook (existence check of the referenced Event);
    - [lib/mongoose.ts]           : the cached database connection.

    JavaScript strings are sequences of UTF-16 code units ([list N]).
    The parts of the host that the code calls but does not define
    (Unicode lower-casing, the fallback date parser, the local time zone)
    are gathered in the record [JS.Engine]. *)

From Stdlib Require Import List NArith ZArith String Ascii Bool Lia.
Import ListNotations.

Set Implicit Arguments.

(* ===================================================================== *)
(** * Part I: definitions                                                 *)
(* ===================================================================== *)

Module JS.

(** ** Strings *)

(** A JavaScript string: its UTF-16 code units. *)
Definition jsstring := list N.

(** The code units of an ASCII literal. *)
Definition lit (s : string) : jsstring :=
  map N_of_ascii (list_ascii_of_string s).

(** ** Character classes of regular expressions (no [u], [i] or [m] flag) *)

Definition between (lo hi c : N) : bool := (lo <=? c)%N && (c <=? hi)%N.

Definition is_digit (c : N) : bool := between 48 57 c.          (* [0-9] *)
Definition is_upper (c : N) : bool := between 65 90 c.          (* [A-Z] *)
Definition is_lower (c : N) : bool := between 97 122 c.         (* [a-z] *)
Definition is_ascii (c : N) : bool := (c <? 128)%N.

Definition c_hyphen : N := 45.
Definition c_dot : N := 46.
Definition c_colon : N := 58.
Definition c_at : N := 64.
Definition c_T : N := 84.
Definition c_Z : N := 90.
Definition c_underscore : N := 95.
Definition c_plus : N := 43.

Definition is_hyphen (c : N) : bool := (c =? c_hyphen)%N.

(** [\w] is [[A-Za-z0-9_]]. *)
Definition is_word (c : N) : bool :=
  is_upper c || is_lower c || is_digit c || (c =? c_underscore)%N.

(** [\s]: the WhiteSpace and LineTerminator code points of ECMAScript. *)
Definition is_space (c : N) : bool :=
  between 9 13 c                       (* \t \n \v \f \r *)
  || (c =? 32)%N                       (* space *)
  || (c =? 160)%N                      (* U+00A0 *)
  || (c =? 5760)%N                     (* U+1680 *)
  || between 8192 8202 c               (* U+2000 .. U+200A *)
  || (c =? 8232)%N || (c =? 8233)%N    (* U+2028, U+2029 *)
  || (c =? 8239)%N                     (* U+202F *)
  || (c =? 8287)%N                     (* U+205F *)
  || (c =? 12288)%N                    (* U+3000 *)
  || (c =? 65279)%N.                   (* U+FEFF *)

(** ** String.prototype methods used by the models *)

Fixpoint drop_while (p : N -> bool) (s : jsstring) : jsstring :=
  match s with
  | [] => []
  | c :: s' => if p c then drop_while p s' else s
  end.

Definition drop_while_end (p : N -> bool) (s : jsstring) : jsstring :=
  rev (drop_while p (rev s)).

(** [s.trim()] removes leading and trailing white space. *)
Definition trim (s : jsstring) : jsstring :=
  drop_while_end is_space (drop_while is_space s).

(** [s.slice(0, n)] for [0 <= n]. *)
Definition slice0 (n : nat) (s : jsstring) : jsstring := firstn n s.

(** [s.split(sep)[0]]: the part of [s] before the first [sep]
    (all of [s] when [sep] does not occur). *)
Fixpoint split_head (sep : N) (s : jsstring) : jsstring :=
  match s with
  | [] => []
  | c :: s' => if (c =? sep)%N then [] else c :: split_head sep s'
  end.

(** Whether the first (last) code unit of [s] satisfies [p]. *)
Definition starts_with (p : N -> bool) (s : jsstring) : bool :=
  match s with
  | [] => false
  | c :: _ => p c
  end.

Definition ends_with (p : N -> bool) (s : jsstring) : bool :=
  starts_with p (rev s).

(** Whether two neighbours in [s] both satisfy [p]. *)
Fixpoint adjacent (p : N -> bool) (s : jsstring) : bool :=
  match s with
  | [] => false
  | a :: t => (p a && starts_with p t) || adjacent p t
  end.

(** The ASCII part of [toLowerCase]: [A-Z] become [a-z]. *)
Definition ascii_lower (c : N) : N := if is_upper c then (c + 32)%N else c.

(** ** Regular expressions

    The patterns given to [RegExp.prototype.test] in the models are all
    anchored at both ends ([/^...$/]), so [test] decides membership of the
    whole string in the language of the pattern.  Patterns are kept as
    syntax and matched by Brzozowski derivatives. *)

Inductive regex : Type :=
| Void : regex
| Eps : regex
| Cls : (N -> bool) -> regex              (* one code unit of a class *)
| Cat : regex -> regex -> regex
| Alt : regex -> regex -> regex
| Star : regex -> regex.

Definition Chr (c : N) : regex := Cls (N.eqb c).
Definition Opt (r : regex) : regex := Alt r Eps.        (* r? *)
Definition Plus (r : regex) : regex := Cat r (Star r).  (* r+ *)

Fixpoint nullable (r : regex) : bool :=
  match r with
  | Void => false
  | Eps => true
  | Cls _ => false
  | Cat r1 r2 => nullable r1 && nullable r2
  | Alt r1 r2 => nullable r1 || nullable r2
  | Star _ => true
  end.

Fixpoint deriv (c : N) (r : regex) : regex :=
  match r with
  | Void => Void
  | Eps => Void
  | Cls p => if p c then Eps else Void
  | Cat r1 r2 =>
      if nullable r1
      then Alt (Cat (deriv c r1) r2) (deriv c r2)
      else Cat (deriv c r1) r2
  | Alt r1 r2 => Alt (deriv c r1) (deriv c r2)
  | Star r1 => Cat (deriv c r1) (Star r1)
  end.

(** [/^r$/.test(s)] *)
Fixpoint test (r : regex) (s : jsstring) : bool :=
  match s with
  | [] => nullable r
  | c :: s' => test (deriv c r) s'
  end.

(** The language of a pattern, as a relation. *)
Inductive Matches : regex -> jsstring -> Prop :=
| MEps : Matches Eps []
| MCls : forall p c, p c = true -> Matches (Cls p) [c]
| MCat : forall r1 r2 s1 s2,
    Matches r1 s1 -> Matches r2 s2 -> Matches (Cat r1 r2) (s1 ++ s2)
| MAltL : forall r1 r2 s, Matches r1 s -> Matches (Alt r1 r2) s
| MAltR : forall r1 r2 s, Matches r2 s -> Matches (Alt r1 r2) s
| MStar0 : forall r, Matches (Star r) []
| MStarS : forall r s1 s2,
    Matches r s1 -> Matches (Star r) s2 -> Matches (Star r) (s1 ++ s2).

(** ** The host engine

    What the models call but the repository does not define.
    - [toLowerCase] is [String.prototype.toLowerCase] (Unicode default
      case conversion);
    - [legacy_date_parse] is the implementation-specific fallback of
      [Date.parse] for strings outside the ECMAScript date-time format
      ([None] is [NaN]);
    - [LocalTZA] is the offset of the local time zone from UTC in
      milliseconds, taken as constant;
    - [tz_suffix] is the zone text that [toTimeString] prints after the
      seconds. *)
Record Engine : Type := {
  toLowerCase : jsstring -> jsstring;
  legacy_date_parse : jsstring -> option Z;
  LocalTZA : Z;
  tz_suffix : jsstring
}.

(** ** Dates: time values are milliseconds since 1970-01-01T00:00:00Z *)

Local Open Scope Z_scope.

Definition msPerDay : Z := 86400000.
Definition msPerHour : Z := 3600000.
Definition msPerMinute : Z := 60000.
Definition msPerSecond : Z := 1000.
Definition maxTimeValue : Z := 8640000000000000.

Definition is_leap (y : Z) : bool :=
  ((y mod 4 =? 0) && negb (y mod 100 =? 0)) || (y mod 400 =? 0).

Definition days_in_month (y m : Z) : Z :=
  if m =? 2 then (if is_leap y then 29 else 28)
  else if (m =? 4) || (m =? 6) || (m =? 9) || (m =? 11) then 30
  else 31.

(** Day number of the civil date [y-m-d] (proleptic Gregorian calendar). *)
Definition days_from_civil (y m d : Z) : Z :=
  let y' := if m <=? 2 then y - 1 else y in
  let era := y' / 400 in
  let yoe := y' - era * 400 in
  let mp := (m + 9) mod 12 in
  let doy := (153 * mp + 2) / 5 + d - 1 in
  let doe := yoe * 365 + yoe / 4 - yoe / 100 + doy in
  era * 146097 + doe - 719468.

(** Civil date of a day number. *)
Definition civil_from_days (z : Z) : Z * Z * Z :=
  let z' := z + 719468 in
  let era := z' / 146097 in
  let doe := z' - era * 146097 in
  let yoe := (doe - doe / 1460 + doe / 36524 - doe / 146096) / 365 in
  let doy := doe - (365 * yoe + yoe / 4 - yoe / 100) in
  let mp := (5 * doy + 2) / 153 in
  let d := doy - (153 * mp + 2) / 5 + 1 in
  let m := if mp <? 10 then mp + 3 else mp - 9 in
  let y := yoe + era * 400 in
  (if m <=? 2 then y + 1 else y, m, d).

(** [n] decimal digits of [v], most significant first. *)
Fixpoint dec_digits (n : nat) (v : Z) : jsstring :=
  match n with
  | O => []
  | S n' => dec_digits n' (v / 10) ++ [Z.to_N (48 + v mod 10)]
  end.

Definition digit_val (c : N) : option Z :=
  if is_digit c then Some (Z.of_N c - 48) else None.

(** Reads exactly [n] decimal digits. *)
Fixpoint read_digits (n : nat) (acc : Z) (s : jsstring)
  : option (Z * jsstring) :=
  match n with
  | O => Some (acc, s)
  | S n' =>
      match s with
      | c :: s' =>
          match digit_val c with
          | Some d => read_digits n' (10 * acc + d) s'
          | None => None
          end
      | [] => None
      end
  end.

(** The elements of a string in the ECMAScript date-time string format
    [YYYY[-MM[-DD]][THH:mm[:ss[.sss]][Z|+HH:mm|-HH:mm]]], also with an
    expanded year [+YYYYYY] or [-YYYYYY]. *)
Record iso_fields : Type := {
  f_year : Z; f_month : Z; f_day : Z;
  f_has_time : bool;
  f_hour : Z; f_min : Z; f_sec : Z; f_ms : Z;
  f_zone : option Z      (* minutes east of UTC; [None] when not written *)
}.

Definition parse_year (s : jsstring) : option (Z * jsstring) :=
  match s with
  | c :: s' =>
      if (c =? c_plus)%N then read_digits 6 0 s'
      else if (c =? c_hyphen)%N then
        match read_digits 6 0 s' with
        | Some (y, r) => if y =? 0 then None else Some (- y, r)
        | None => None
        end
      else read_digits 4 0 s
  | [] => None
  end.

(** The zone designator, which ends the string. *)
Definition parse_zone (s : jsstring) : option (option Z) :=
  match s with
  | [] => Some None
  | c :: s' =>
      if (c =? c_Z)%N then
        match s' with [] => Some (Some 0) | _ => None end
      else if (c =? c_plus)%N || (c =? c_hyphen)%N then
        match read_digits 2 0 s' with
        | Some (hh, c1 :: r1) =>
            if (c1 =? c_colon)%N then
              match read_digits 2 0 r1 with
              | Some (mm, []) =>
                  if (hh <=? 23) && (mm <=? 59)
                  then Some (Some
                         ((if (c =? c_plus)%N then 1 else -1) * (hh * 60 + mm)))
                  else None
              | _ => None
              end
            else None
        | _ => None
        end
      else None
  end.

(** The time after [T]: hour, minute, second, millisecond, zone. *)
Definition parse_time (s : jsstring) : option (Z * Z * Z * Z * option Z) :=
  match read_digits 2 0 s with
  | Some (hh, c1 :: r1) =>
      if (c1 =? c_colon)%N then
        match read_digits 2 0 r1 with
        | Some (mi, r2) =>
            match r2 with
            | c2 :: r3 =>
                if (c2 =? c_colon)%N then
                  match read_digits 2 0 r3 with
                  | Some (ss, r4) =>
                      match r4 with
                      | c4 :: r5 =>
                          if (c4 =? c_dot)%N then
                            match read_digits 3 0 r5 with
                            | Some (ms, r6) =>
                                option_map (fun z => (hh, mi, ss, ms, z))
                                           (parse_zone r6)
                            | None => None
                            end
                          else option_map (fun z => (hh, mi, ss, 0, z))
                                          (parse_zone r4)
                      | [] => Some (hh, mi, ss, 0, None)
                      end
                  | None => None
                  end
                else option_map (fun z => (hh, mi, 0, 0, z)) (parse_zone r2)
            | [] => Some (hh, mi, 0, 0, None)
            end
        | None => None
        end
      else None
  | _ => None
  end.

Definition date_only (y m d : Z) : iso_fields :=
  {| f_year := y; f_month := m; f_day := d; f_has_time := false;
     f_hour := 0; f_min := 0; f_sec := 0; f_ms := 0; f_zone := None |}.

(** What may follow the date: nothing, or [T] and a time. *)
Definition parse_rest (y m d : Z) (s : jsstring) : option iso_fields :=
  match s with
  | [] => Some (date_only y m d)
  | c :: s' =>
      if (c =? c_T)%N then
        match parse_time s' with
        | Some (hh, mi, ss, ms, z) =>
            Some {| f_year := y; f_month := m; f_day := d;
                    f_has_time := true;
                    f_hour := hh; f_min := mi; f_sec := ss; f_ms := ms;
                    f_zone := z |}
        | None => None
        end
      else None
  end.

Definition parse_iso (s : jsstring) : option iso_fields :=
  match parse_year s with
  | Some (y, c1 :: r1) =>
      if (c1 =? c_hyphen)%N then
        match read_digits 2 0 r1 with
        | Some (m, c2 :: r2) =>
            if (c2 =? c_hyphen)%N then
              match read_digits 2 0 r2 with
              | Some (d, r3) => parse_rest y m d r3
              | None => None
              end
            else parse_rest y m 1 (c2 :: r2)
        | Some (m, []) => Some (date_only y m 1)
        | None => None
        end
      else parse_rest y 1 1 (c1 :: r1)
  | Some (y, []) => Some (date_only y 1 1)
  | None => None
  end.

(** Element values the format allows: month 01-12, day 01-31, hour 00-24,
    minute and second 00-59, and 24:00:00.000 as the only time with
    hour 24. *)
Definition fields_in_range (f : iso_fields) : bool :=
  (1 <=? f_month f) && (f_month f <=? 12)
  && (1 <=? f_day f) && (f_day f <=? 31)
  && (f_hour f <=? 24) && (f_min f <=? 59) && (f_sec f <=? 59)
  && ((f_hour f <? 24)
      || ((f_min f =? 0) && (f_sec f =? 0) && (f_ms f =? 0))).

(** The time value of the fields.  Date-only forms are UTC; date-time
    forms without a zone are local time. *)
Definition fields_time (tza : Z) (f : iso_fields) : Z :=
  let day := days_from_civil (f_year f) (f_month f) (f_day f) in
  let tv := day * msPerDay + f_hour f * msPerHour + f_min f * msPerMinute
            + f_sec f * msPerSecond + f_ms f in
  match f_zone f with
  | Some off => tv - off * msPerMinute
  | None => if f_has_time f then tv - tza else tv
  end.

(** Outcome of reading a string in the ECMAScript format. *)
Inductive es_outcome : Type :=
| EsTime : Z -> es_outcome     (* a time value *)
| EsNaN : es_outcome           (* in the format, element out of bounds *)
| EsOther : es_outcome.        (* left to the implementation *)

(** A string of the format with an element out of bounds gives [NaN];
    a day 29-31 past the end of its month is read differently by
    different engines and is left to the fallback, like every string
    outside the format. *)
Definition es_parse (tza : Z) (s : jsstring) : es_outcome :=
  match parse_iso s with
  | None => EsOther
  | Some f =>
      if negb (fields_in_range f) then EsNaN
      else if days_in_month (f_year f) (f_month f) <? f_day f then EsOther
      else
        let t := fields_time tza f in
        if Z.abs t <=? maxTimeValue then EsTime t else EsNaN
  end.

(** [new Date(s).getTime()], [None] for [NaN]. *)
Definition Date_parse (eng : Engine) (s : jsstring) : option Z :=
  match es_parse (LocalTZA eng) s with
  | EsTime t => Some t
  | EsNaN => None
  | EsOther => legacy_date_parse eng s
  end.

Definition year_text (y : Z) : jsstring :=
  if (0 <=? y) && (y <=? 9999) then dec_digits 4 y
  else (if y <? 0 then c_hyphen else c_plus) :: dec_digits 6 (Z.abs y).

(** The date part of [toISOString]: the UTC calendar day. *)
Definition iso_date_text (t : Z) : jsstring :=
  let '(y, m, d) := civil_from_days (t / msPerDay) in
  year_text y ++ [c_hyphen] ++ dec_digits 2 m ++ [c_hyphen] ++ dec_digits 2 d.

Definition hour_of (t : Z) : Z := (t mod msPerDay) / msPerHour.
Definition min_of (t : Z) : Z := ((t mod msPerDay) / msPerMinute) mod 60.
Definition sec_of (t : Z) : Z := ((t mod msPerDay) / msPerSecond) mod 60.
Definition ms_of (t : Z) : Z := t mod msPerSecond.

(** [d.toISOString()] for a valid time value:
    [YYYY-MM-DDTHH:mm:ss.sssZ]. *)
Definition toISOString (t : Z) : jsstring :=
  iso_date_text t ++ [c_T]
  ++ dec_digits 2 (hour_of t) ++ [c_colon]
  ++ dec_digits 2 (min_of t) ++ [c_colon]
  ++ dec_digits 2 (sec_of t) ++ [c_dot]
  ++ dec_digits 3 (ms_of t) ++ [c_Z].

(** [d.toTimeString()]: the local time of day [HH:mm:ss], then the zone. *)
Definition toTimeString (eng : Engine) (t : Z) : jsstring :=
  let l := t + LocalTZA eng in
  dec_digits 2 (hour_of l) ++ [c_colon]
  ++ dec_digits 2 (min_of l) ++ [c_colon]
  ++ dec_digits 2 (sec_of l) ++ tz_suffix eng.

Local Close Scope Z_scope.

(** What every conforming engine guarantees of [toLowerCase] and the
    proofs rely on: the result has no ASCII capital letter, and on a
    string of ASCII code units the result is [ascii_lower] of each. *)
Definition lowercase_ok (eng : Engine) : Prop :=
  (forall s, Forall (fun c => is_upper c = false) (toLowerCase eng s))
  /\ (forall s, Forall (fun c => is_ascii c = true) s ->
                toLowerCase eng s = map ascii_lower s).

(** *** Texts of times and dates *)

(** [HH:MM], [H:MM] and [YYYY-MM-DD]. *)
Definition hhmm (h m : Z) : jsstring :=
  dec_digits 2 h ++ [c_colon] ++ dec_digits 2 m.

Definition hmm (h m : Z) : jsstring :=
  dec_digits 1 h ++ [c_colon] ++ dec_digits 2 m.

Definition ymd (y m d : Z) : jsstring :=
  dec_digits 4 y ++ [c_hyphen] ++ dec_digits 2 m ++ [c_hyphen]
  ++ dec_digits 2 d.

(** [HH:MM:SS] *)
Definition hhmmss (h m s : Z) : jsstring :=
  hhmm h m ++ [c_colon] ++ dec_digits 2 s.

(** [p 0 && p 1 && ... && p (n - 1)] *)
Definition all_below (n : N) (p : Z -> bool) : bool :=
  snd (N.iter n (fun st => (fst st + 1, snd st && p (fst st)))%Z (0%Z, true)).

(** An engine to evaluate the models with: lower-casing of ASCII only, no
    fallback date formats, local time UTC. *)
Definition utc_engine : Engine :=
  {| toLowerCase := map ascii_lower;
     legacy_date_parse := fun _ => None;
     LocalTZA := 0%Z;
     tz_suffix := lit " GMT+0000 (Coordinated Universal Time)" |}.

(** *** The calendar, checked over one cycle of 400 years

    The civil calendar repeats every 146097 days.  [civil_cycle_check]
    takes a day of the cycle that starts on 0000-03-01 and
    [date_cycle_check] a date of the years 0 to 399, numbered by
    [372 * y + 31 * (m - 1) + (d - 1)]. *)
Definition civil_cycle_check (doe : Z) : bool :=
  let z := (doe - 719468)%Z in
  let '(y, m, d) := civil_from_days z in
  ((days_from_civil y m d =? z) && (1 <=? m) && (m <=? 12) && (1 <=? d)
   && (d <=? days_in_month y m) && (0 <=? y) && (y <=? 400))%Z.

Definition date_cycle_check (i : Z) : bool :=
  let y := (i / 372)%Z in
  let m := ((i mod 372) / 31 + 1)%Z in
  let d := (i mod 31 + 1)%Z in
  if (d <=? days_in_month y m)%Z then
    let '(y', m', d') := civil_from_days (days_from_civil y m d) in
    ((y' =? y) && (m' =? m) && (d' =? d))%Z
  else true.

(** Time values are within 100 000 000 days of the epoch; this is said
    of the values of the fallback parser. *)
Definition legacy_in_range (eng : Engine) : Prop :=
  forall s t, legacy_date_parse eng s = Some t ->
              (Z.abs t <= maxTimeValue)%Z.

(** The same engine in the zone [tza] milliseconds east of UTC. *)
Definition zoned_engine (tza : Z) : Engine :=
  {| toLowerCase := map ascii_lower;
     legacy_date_parse := fun _ => None;
     LocalTZA := tza;
     tz_suffix := lit " GMT" |}.

End JS.

(* --------------------------------------------------------------------- *)
(** ** database/event.model.ts                                            *)
(* --------------------------------------------------------------------- *)

Module EventModel.
Import JS.

(** [IEvent].  The timestamps are maintained by the store, not by the
    hook, and are left out. *)
Record IEvent : Type := {
  title : jsstring;
  slug : jsstring;
  description : jsstring;
  overview : jsstring;
  image : jsstring;
  venue : jsstring;
  location : jsstring;
  date : jsstring;
  time : jsstring;
  mode : jsstring;
  audience : jsstring;
  agenda : list jsstring;
  organizer : jsstring;
  tags : list jsstring
}.

(** A document: its fields with the change tracking that the hook reads
    ([this.isNew], [this.isModified(path)]).  The hook never tests a path
    after assigning it, so assignments leave the tracking as it is. *)
Record Doc : Type := {
  fields : IEvent;
  isNew : bool;
  modifiedPaths : list string
}.

Definition isModified (d : Doc) (path : string) : bool :=
  existsb (String.eqb path) (modifiedPaths d).

Definition with_fields (d : Doc) (e : IEvent) : Doc :=
  {| fields := e; isNew := isNew d; modifiedPaths := modifiedPaths d |}.

(** The document with [v] as its slug. *)
Definition put_slug (v : jsstring) (d : Doc) : Doc :=
  let e := fields d in
  with_fields d
    {| title := title e; slug := v;
       description := description e; overview := overview e;
       image := image e; venue := venue e; location := location e;
       date := date e; time := time e; mode := mode e;
       audience := audience e; agenda := agenda e;
       organizer := organizer e; tags := tags e |}.

(** [this.slug = v].  The schema declares [slug] with [lowercase: true]:
    every value assigned to it goes through [toLowerCase]. *)
Definition assign_slug (eng : Engine) (v : jsstring) (d : Doc) : Doc :=
  put_slug (toLowerCase eng v) d.

(** [this.date = v] and [this.time = v]; the schema declares no setter for
    them. *)
Definition assign_date (v : jsstring) (d : Doc) : Doc :=
  let e := fields d in
  with_fields d
    {| title := title e; slug := slug e;
       description := description e; overview := overview e;
       image := image e; venue := venue e; location := location e;
       date := v; time := time e; mode := mode e;
       audience := audience e; agenda := agenda e;
       organizer := organizer e; tags := tags e |}.

Definition assign_time (v : jsstring) (d : Doc) : Doc :=
  let e := fields d in
  with_fields d
    {| title := title e; slug := slug e;
       description := description e; overview := overview e;
       image := image e; venue := venue e; location := location e;
       date := date e; time := v; mode := mode e;
       audience := audience e; agenda := agenda e;
       organizer := organizer e; tags := tags e |}.

(** *** The three replacements of the slug derivation *)

(** [.replace(/[^\w\s-]/g, '')]: every code unit outside the class
    [[\w\s-]] is deleted. *)
Definition keeps (c : N) : bool := is_word c || is_space c || is_hyphen c.
Definition remove_special (s : jsstring) : jsstring := filter keeps s.

(** [.replace(/[\s_-]+/g, '-')]: every maximal run of white space,
    underscores and hyphens becomes one hyphen.  [in_run] tells that the
    previous code unit belonged to a run, whose hyphen is already out. *)
Definition is_sep (c : N) : bool :=
  is_space c || (c =? c_underscore)%N || is_hyphen c.

Fixpoint replace_sep_runs (in_run : bool) (s : jsstring) : jsstring :=
  match s with
  | [] => []
  | c :: s' =>
      if is_sep c then
        if in_run then replace_sep_runs true s'
        else c_hyphen :: replace_sep_runs true s'
      else c :: replace_sep_runs false s'
  end.

(** [.replace(/^-+|-+$/g, '')]: the hyphens at the start and the hyphens
    at the end are deleted. *)
Definition strip_edge_hyphens (s : jsstring) : jsstring :=
  drop_while_end is_hyphen (drop_while is_hyphen s).

(** The expression assigned to [this.slug]. *)
Definition slugify (eng : Engine) (t : jsstring) : jsstring :=
  strip_edge_hyphens
    (replace_sep_runs false
       (remove_special
          (trim (toLowerCase eng t)))).

(** The code units of a slug: [[a-z0-9-]]. *)
Definition slug_char (c : N) : bool := is_lower c || is_digit c || is_hyphen c.

(** *** The hook

    A step of the hook returns the document as it has mutated it and the
    error it has passed to [next], if any. *)
Definition step : Type := Doc -> Doc * option string.

Definition and_then (f g : step) : step :=
  fun d =>
    match f d with
    | (d', None) => g d'
    | (d', Some err) => (d', Some err)
    end.

Definition slug_step (eng : Engine) : step := fun d =>
  if isNew d || isModified d "title"
  then (assign_slug eng (slugify eng (title (fields d))) d, None)
  else (d, None).

(** The body of the [try] of the date normalisation: the new value, or
    the message of the error thrown. *)
Definition date_try (eng : Engine) (v : jsstring) : string + jsstring :=
  match Date_parse eng v with
  | None => inl "Invalid date format"%string
  | Some t => inr (split_head c_T (toISOString t))
  end.

(** The [catch] has no binding: whatever was thrown, it passes its own
    error to [next]. *)
Definition date_step (eng : Engine) : step := fun d =>
  if isNew d || isModified d "date" then
    match date_try eng (date (fields d)) with
    | inr v => (assign_date v d, None)
    | inl _ =>
        (d, Some
           "Date must be in a valid format (YYYY-MM-DD or ISO string)"%string)
    end
  else (d, None).

(** [/^([01]?[0-9]|2[0-3]):([0-5][0-9])$/] *)
Definition timeRegex : regex :=
  Cat (Alt (Cat (Opt (Cls (between 48 49))) (Cls is_digit))
           (Cat (Chr 50) (Cls (between 48 51))))
      (Cat (Chr c_colon)
           (Cat (Cls (between 48 53)) (Cls is_digit))).

Definition time_try (eng : Engine) (v : jsstring) : string + jsstring :=
  match Date_parse eng (lit "2000-01-01T" ++ v) with
  | None => inl "Invalid time"%string
  | Some t => inr (slice0 5 (toTimeString eng t))
  end.

Definition time_step (eng : Engine) : step := fun d =>
  if isNew d || isModified d "time" then
    if negb (test timeRegex (time (fields d))) then
      match time_try eng (time (fields d)) with
      | inr v => (assign_time v d, None)
      | inl _ => (d, Some "Time must be in HH:MM format"%string)
      end
    else (d, None)
  else (d, None).

Definition agenda_guard : step := fun d =>
  if (List.length (agenda (fields d)) =? 0)%nat
  then (d, Some "Agenda cannot be empty"%string)
  else (d, None).

Definition tags_guard : step := fun d =>
  if (List.length (tags (fields d)) =? 0)%nat
  then (d, Some "Tags cannot be empty"%string)
  else (d, None).

(** [EventSchema.pre('save', ...)] *)
Definition pre_save (eng : Engine) : step :=
  and_then (slug_step eng)
    (and_then (date_step eng)
       (and_then (time_step eng)
          (and_then agenda_guard tags_guard))).

(** The document after a successful save: it is no longer new and no path
    is marked as modified. *)
Definition after_save (d : Doc) : Doc :=
  {| fields := fields d; isNew := false; modifiedPaths := [] |}.

(** A new document, with the values of the test suite for the fields the
    hook does not read. *)
Definition new_event (t dt tm : jsstring) : Doc :=
  {| fields :=
       {| title := t; slug := [];
          description := lit "Test Description";
          overview := lit "Test Overview";
          image := lit "https://example.com/image.jpg";
          venue := lit "Test Venue";
          location := lit "Test Location";
          date := dt; time := tm;
          mode := lit "online";
          audience := lit "Developers";
          agenda := [lit "Item 1"];
          organizer := lit "Test Organizer";
          tags := [lit "tag1"] |};
     isNew := true;
     modifiedPaths := [] |}.

(** *** When the steps of the hook refuse a document *)

Definition date_refused (eng : Engine) (d : Doc) : bool :=
  (isNew d || isModified d "date")
  && match Date_parse eng (date (fields d)) with
     | None => true
     | Some _ => false
     end.

Definition time_refused (eng : Engine) (d : Doc) : bool :=
  (isNew d || isModified d "time")
  && negb (test timeRegex (time (fields d)))
  && match Date_parse eng (lit "2000-01-01T" ++ time (fields d)) with
     | None => true
     | Some _ => false
     end.

(** What the hook does not assign: every field but slug, date and time,
    and the change tracking. *)
Definition same_but_derived (d d' : Doc) : Prop :=
  title (fields d') = title (fields d)
  /\ description (fields d') = description (fields d)
  /\ overview (fields d') = overview (fields d)
  /\ image (fields d') = image (fields d)
  /\ venue (fields d') = venue (fields d)
  /\ location (fields d') = location (fields d)
  /\ mode (fields d') = mode (fields d)
  /\ audience (fields d') = audience (fields d)
  /\ agenda (fields d') = agenda (fields d)
  /\ organizer (fields d') = organizer (fields d)
  /\ tags (fields d') = tags (fields d)
  /\ isNew d' = isNew d
  /\ modifiedPaths d' = modifiedPaths d.

(** [[A-Za-z0-9]]: the code units of [\w] that are no separator. *)
Definition is_alnum (c : N) : bool := is_upper c || is_lower c || is_digit c.

End EventModel.

(* --------------------------------------------------------------------- *)
(** ** database/booking.model.ts                                          *)
(* --------------------------------------------------------------------- *)

Module BookingModel.
Import JS.

(** An [ObjectId], as the text its interpolation into a message gives. *)
Definition ObjectId : Type := string.

Record IBooking : Type := {
  eventId : ObjectId;
  email : jsstring
}.

Record Doc : Type := {
  fields : IBooking;
  isNew : bool;
  modifiedPaths : list string
}.

Definition isModified (d : Doc) (path : string) : bool :=
  existsb (String.eqb path) (modifiedPaths d).

(** *** The e-mail path *)

(** [[^\s@]] *)
Definition not_space_at (c : N) : bool :=
  negb (is_space c || (c =? c_at)%N).

(** [/^[^\s@]+@[^\s@]+\.[^\s@]+$/] *)
Definition emailRegex : regex :=
  Cat (Plus (Cls not_space_at))
      (Cat (Chr c_at)
           (Cat (Plus (Cls not_space_at))
                (Cat (Chr c_dot) (Plus (Cls not_space_at))))).

(** The setters of the path, [lowercase: true] and [trim: true]. *)
Definition set_email (eng : Engine) (v : jsstring) : jsstring :=
  trim (toLowerCase eng v).

(** The validators of the path, in the order in which they run:
    [required], [validate], [maxlength].  The result is the message of
    the first one that fails. *)
Definition validate_email (v : jsstring) : option string :=
  if (List.length v =? 0)%nat then Some "Email is required"%string
  else if negb (test emailRegex v)
       then Some "Please provide a valid email address"%string
  else if (254 <? List.length v)%nat
       then Some "Email cannot exceed 254 characters"%string
  else None.

(** *** Effects of a save: reads of the Event collection and the write *)

Inductive effect : Type :=
| ExistsEvent : ObjectId -> effect        (* Event.exists({ _id }) *)
| InsertBooking : IBooking -> effect.

(** What a rejected promise carries: an [Error] with its message, or any
    other value. *)
Inductive thrown : Type :=
| ThrownError : string -> thrown
| ThrownValue : thrown.

(** Outcome of [Event.exists]: a document id, [null], or a rejection. *)
Inductive lookup : Type :=
| Found : lookup
| Absent : lookup
| Rejects : thrown -> lookup.

Record Store : Type := {
  Event_exists : ObjectId -> lookup
}.

(** Computations that read the store, log their effects and may throw. *)
Definition M (A : Type) : Type := Store -> list effect * (thrown + A).

Definition ret {A : Type} (a : A) : M A := fun _ => ([], inr a).

Definition bind {A B : Type} (m : M A) (k : A -> M B) : M B :=
  fun st =>
    match m st with
    | (log, inl t) => (log, inl t)
    | (log, inr a) => let '(log', r) := k a st in (log ++ log', r)
    end.

Definition try_catch {A : Type} (m : M A) (handler : thrown -> M A) : M A :=
  fun st =>
    match m st with
    | (log, inl t) => let '(log', r) := handler t st in (log ++ log', r)
    | (log, inr a) => (log, inr a)
    end.

Notation "x <- m ;; k" := (bind m (fun x => k))
  (at level 61, m at next level, right associativity).

(** [await Event.exists({ _id: id })], as a truth value. *)
Definition exists_event (id : ObjectId) : M bool :=
  fun st =>
    ([ExistsEvent id],
     match Event_exists st id with
     | Found => inr true
     | Absent => inr false
     | Rejects t => inl t
     end).

Definition insert_booking (b : IBooking) : M unit :=
  fun _ => ([InsertBooking b], inr tt).

(** [BookingSchema.pre('save', ...)]: the error passed to [next], if any.
    [mongoose.models.Event || (await import('./event.model')).default]
    is the Event model in either case. *)
Definition pre_save (d : Doc) : M (option string) :=
  if isNew d || isModified d "eventId" then
    try_catch
      (eventExists <- exists_event (eventId (fields d)) ;;
       if negb eventExists
       then ret (Some ("Event with ID " ++ eventId (fields d)
                       ++ " does not exist")%string)
       else ret None)
      (fun error =>
         match error with
         | ThrownError message =>
             ret (Some ("Failed to validate event reference: "
                        ++ message)%string)
         | ThrownValue =>
             ret (Some "Failed to validate event reference"%string)
         end)
  else ret None.

(** [doc.save()]: the validators of the schema, then the pre-save hook,
    then the write.  The result is the error that rejects the save, if
    any. *)
Definition save (d : Doc) : M (option string) :=
  match validate_email (email (fields d)) with
  | Some message => ret (Some message)
  | None =>
      err <- pre_save d ;;
      match err with
      | Some message => ret (Some message)
      | None => _ <- insert_booking (fields d) ;; ret None
      end
  end.

(** [new Booking({ eventId, email })]: the setters run on assignment. *)
Definition new_booking (eng : Engine) (id : ObjectId) (mail : jsstring)
  : Doc :=
  {| fields := {| eventId := id; email := set_email eng mail |};
     isNew := true;
     modifiedPaths := [] |}.

End BookingModel.

(* --------------------------------------------------------------------- *)
(** ** lib/mongoose.ts                                                    *)
(* --------------------------------------------------------------------- *)

Module MongooseLib.
Import JS.

(** A connected [Mongoose] instance and a promise, by identity. *)
Definition Mongoose : Type := nat.
Definition PromiseId : Type := nat.

(** [interface MongooseConnection] *)
Record MongooseConnection : Type := {
  conn : option Mongoose;
  promise : option PromiseId
}.

(** *** Module initialisation *)

Inductive init_effect : Type :=
| Connect : jsstring -> init_effect            (* mongoose.connect(url) *)
| Listen : string -> init_effect               (* mongoose.connection.on *)
| OnSignal : string -> init_effect.            (* process.on *)

Inductive init_result : Type :=
| InitThrows : string -> init_result
| InitDone : jsstring -> MongooseConnection -> init_result.

(** [!v] for a value that is a string or [undefined]. *)
Definition falsy (v : option jsstring) : bool :=
  match v with
  | None => true
  | Some [] => true
  | Some (_ :: _) => false
  end.

(** The top level of the module, given [process.env.MONGODB_URL] and
    [global.mongoose]: the effects performed, the result ([mongoUrl] and
    [cached] when the module loads) and [global.mongoose] afterwards. *)
Definition module_init (MONGODB_URL : option jsstring)
    (global_mongoose : option MongooseConnection)
  : list init_effect * init_result * option MongooseConnection :=
  if falsy MONGODB_URL then
    ([],
     InitThrows
       "Please define the MONGODB_URL environment variable inside .env",
     global_mongoose)
  else
    let mongoUrl := match MONGODB_URL with Some u => u | None => [] end in
    let cached :=
      match global_mongoose with
      | Some g => g
      | None => {| conn := None; promise := None |}
      end in
    ([Listen "connected"; Listen "error"; Listen "disconnected";
      OnSignal "SIGINT"],
     InitDone mongoUrl cached,
     Some cached).

(** *** connectToDatabase

    The function runs up to its [await] when it is called and resumes
    after the awaited promise has settled; other calls may run in
    between.  An entry of [promises] stands for one call of
    [mongoose.connect(mongoUrl, options)]: the promise stored in
    [cached.promise] is the end of the chain
    [mongoose.connect(...).then(...).catch(...)].  The settling of the
    connection attempt and of the chain, with the handlers run on the
    way, is one step, since a call in between finds [cached.promise]
    unchanged and still pending. *)

Inductive settled : Type :=
| Fulfilled : Mongoose -> settled
| Rejected : string -> settled.

Inductive pstate : Type :=
| Pending : pstate
| Settled : settled -> pstate.

Record State : Type := {
  cached : MongooseConnection;
  promises : list pstate;            (* the attempts started, by identity *)
  awaiting : list (nat * PromiseId); (* calls suspended at the [await] *)
  completed : list (nat * settled)   (* what finished calls returned/threw *)
}.

Inductive action : Type :=
| Call : nat -> action                    (* caller [c] calls the function *)
| Settle : PromiseId -> settled -> action (* an attempt settles *)
| Resume : nat -> action.                 (* caller [c] resumes *)

Definition is_pending (p : pstate) : bool :=
  match p with Pending => true | Settled _ => false end.

Fixpoint set_nth {A : Type} (n : nat) (x : A) (l : list A) : list A :=
  match l, n with
  | [], _ => []
  | _ :: l', O => x :: l'
  | y :: l', S n' => y :: set_nth n' x l'
  end.

(** Removes the first entry of caller [c] and returns its promise. *)
Fixpoint take_waiter (c : nat) (w : list (nat * PromiseId))
  : option (PromiseId * list (nat * PromiseId)) :=
  match w with
  | [] => None
  | (c', p) :: w' =>
      if (c' =? c)%nat then Some (p, w')
      else match take_waiter c w' with
           | Some (q, r) => Some (q, (c', p) :: r)
           | None => None
           end
  end.

(** [connectToDatabase()], up to its [return] or its [await]. *)
Definition connectToDatabase (c : nat) (s : State) : State :=
  match conn (cached s) with
  | Some m =>
      {| cached := cached s; promises := promises s;
         awaiting := awaiting s;
         completed := completed s ++ [(c, Fulfilled m)] |}
  | None =>
      match promise (cached s) with
      | None =>
          let p := List.length (promises s) in
          {| cached := {| conn := conn (cached s); promise := Some p |};
             promises := promises s ++ [Pending];
             awaiting := awaiting s ++ [(c, p)];
             completed := completed s |}
      | Some p =>
          {| cached := cached s; promises := promises s;
             awaiting := awaiting s ++ [(c, p)];
             completed := completed s |}
      end
  end.

(** The attempt behind promise [p] settles: [.then] passes the instance
    on, [.catch] clears [cached.promise] and throws the error again. *)
Definition settle (p : PromiseId) (r : settled) (s : State)
  : option State :=
  match nth_error (promises s) p with
  | Some Pending =>
      Some {| cached :=
                match r with
                | Fulfilled _ => cached s
                | Rejected _ =>
                    {| conn := conn (cached s); promise := None |}
                end;
              promises := set_nth p (Settled r) (promises s);
              awaiting := awaiting s;
              completed := completed s |}
  | _ => None
  end.

(** The rest of [connectToDatabase], after the [await]. *)
Definition connectToDatabase_resume (c : nat) (s : State) : option State :=
  match take_waiter c (awaiting s) with
  | Some (p, rest) =>
      match nth_error (promises s) p with
      | Some (Settled (Fulfilled m)) =>
          Some {| cached :=
                    {| conn := Some m; promise := promise (cached s) |};
                  promises := promises s;
                  awaiting := rest;
                  completed := completed s ++ [(c, Fulfilled m)] |}
      | Some (Settled (Rejected e)) =>
          Some {| cached := {| conn := None; promise := None |};
                  promises := promises s;
                  awaiting := rest;
                  completed := completed s ++ [(c, Rejected e)] |}
      | _ => None
      end
  | None => None
  end.

Definition do_action (a : action) (s : State) : option State :=
  match a with
  | Call c => Some (connectToDatabase c s)
  | Settle p r => settle p r s
  | Resume c => connectToDatabase_resume c s
  end.

Fixpoint run (tr : list action) (s : State) : option State :=
  match tr with
  | [] => Some s
  | a :: tr' =>
      match do_action a s with
      | Some s' => run tr' s'
      | None => None
      end
  end.

(** The state when the module has loaded with a fresh cache. *)
Definition initial : State :=
  {| cached := {| conn := None; promise := None |};
     promises := []; awaiting := []; completed := [] |}.

Definition reachable (s : State) : Prop :=
  exists tr, run tr initial = Some s.

(** Number of connection attempts that have not settled. *)
Definition in_flight (s : State) : nat :=
  List.length (filter is_pending (promises s)).

(** The only attempt that may be pending is the one in [cached.promise]. *)
Definition single_attempt (s : State) : Prop :=
  forall q, nth_error (promises s) q = Some Pending ->
            promise (cached s) = Some q.

(** A caller resumes late when the attempt it awaited has failed and
    [cached.promise] has been set again in the meantime. *)
Definition late_resume (a : action) (s : State) : Prop :=
  match a with
  | Resume c =>
      exists p rest e,
        take_waiter c (awaiting s) = Some (p, rest)
        /\ nth_error (promises s) p = Some (Settled (Rejected e))
        /\ promise (cached s) <> None
  | _ => False
  end.

(** [late_resume], as a test. *)
Definition resumes_late (a : action) (s : State) : bool :=
  match a with
  | Resume c =>
      match take_waiter c (awaiting s) with
      | Some (p, _) =>
          match nth_error (promises s) p, promise (cached s) with
          | Some (Settled (Rejected _)), Some _ => true
          | _, _ => false
          end
      | None => false
      end
  | _ => false
  end.

(** No step of the run of [tr] from [s] is a late resume. *)
Fixpoint timely (tr : list action) (s : State) : bool :=
  match tr with
  | [] => true
  | a :: tr' =>
      negb (resumes_late a s)
      && match do_action a s with
         | Some s' => timely tr' s'
         | None => true
         end
  end.

(** No attempt of [tr] fails. *)
Definition failure_free (tr : list action) : bool :=
  forallb (fun a => match a with
                    | Settle _ (Rejected _) => false
                    | _ => true
                    end) tr.

(** The shapes of the state while no attempt has failed: nothing
    started; the one attempt pending; the one attempt fulfilled. *)
Definition calm (s : State) : Prop :=
  (promises s = [] /\ cached s = {| conn := None; promise := None |}
   /\ awaiting s = [] /\ completed s = [])
  \/ (promises s = [Pending]
      /\ cached s = {| conn := None; promise := Some 0%nat |}
      /\ Forall (fun w => snd w = 0%nat) (awaiting s)
      /\ completed s = [])
  \/ (exists m,
        promises s = [Settled (Fulfilled m)]
        /\ promise (cached s) = Some 0%nat
        /\ (conn (cached s) = None \/ conn (cached s) = Some m)
        /\ Forall (fun w => snd w = 0%nat) (awaiting s)
        /\ Forall (fun cr => snd cr = Fulfilled m) (completed s)).

(** What the cache holds and what calls have returned or thrown comes
    from a settled attempt. *)
Definition grounded (s : State) : Prop :=
  (forall m, conn (cached s) = Some m ->
             exists p, nth_error (promises s) p = Some (Settled (Fulfilled m)))
  /\ (forall c r, In (c, r) (completed s) ->
                  exists p, nth_error (promises s) p = Some (Settled r)).

(** *** isConnected and getConnectionState

    Both read [mongoose.connection.readyState]. *)

Definition isConnected (readyState : Z) : bool := (readyState =? 1)%Z.

(** The object [states], as a lookup. *)
Definition states (readyState : Z) : option string :=
  if (readyState =? 0)%Z then Some "disconnected"%string
  else if (readyState =? 1)%Z then Some "connected"%string
  else if (readyState =? 2)%Z then Some "connecting"%string
  else if (readyState =? 3)%Z then Some "disconnecting"%string
  else None.

(** [states[readyState] || 'unknown'] *)
Definition getConnectionState (readyState : Z) : string :=
  match states readyState with
  | Some EmptyString => "unknown"
  | Some name => name
  | None => "unknown"
  end.

(** *** disconnect

    [disconnect] runs up to its [await] when it is called, if there is a
    cached connection, and resumes when [mongoose.disconnect()] has
    settled; calls of [connectToDatabase] and of [disconnect] may run in
    between. *)

Record App : Type := {
  db : State;
  closing : list nat;     (* calls of [disconnect] suspended at the [await] *)
  disconnects : nat       (* calls of [mongoose.disconnect()] made so far *)
}.

Inductive event : Type :=
| Db : action -> event
| Disconnect : nat -> event          (* caller [k] calls [disconnect()] *)
| Disconnected : nat -> event        (* [mongoose.disconnect()] resolved *)
| DisconnectFailed : nat -> event.   (* [mongoose.disconnect()] rejected *)

Fixpoint remove_first (k : nat) (l : list nat) : option (list nat) :=
  match l with
  | [] => None
  | k' :: l' =>
      if (k' =? k)%nat then Some l'
      else match remove_first k l' with
           | Some r => Some (k' :: r)
           | None => None
           end
  end.

(** [cached.conn = null; cached.promise = null] *)
Definition clear_cache (s : State) : State :=
  {| cached := {| conn := None; promise := None |};
     promises := promises s;
     awaiting := awaiting s;
     completed := completed s |}.

(** [disconnect()], up to its [return] or its [await]. *)
Definition disconnect (k : nat) (a : App) : App :=
  match conn (cached (db a)) with
  | Some _ =>
      {| db := db a;
         closing := closing a ++ [k];
         disconnects := S (disconnects a) |}
  | None => a
  end.

(** The rest of [disconnect], after the [await]: the cache is cleared
    when [mongoose.disconnect()] resolved, and left as it is when it
    rejected, since the function then throws. *)
Definition disconnect_resume (k : nat) (resolved : bool) (a : App)
  : option App :=
  match remove_first k (closing a) with
  | Some rest =>
      Some {| db := if resolved then clear_cache (db a) else db a;
              closing := rest;
              disconnects := disconnects a |}
  | None => None
  end.

Definition do_event (e : event) (a : App) : option App :=
  match e with
  | Db x =>
      match do_action x (db a) with
      | Some s' =>
          Some {| db := s'; closing := closing a;
                  disconnects := disconnects a |}
      | None => None
      end
  | Disconnect k => Some (disconnect k a)
  | Disconnected k => disconnect_resume k true a
  | DisconnectFailed k => disconnect_resume k false a
  end.

Fixpoint run_app (tr : list event) (a : App) : option App :=
  match tr with
  | [] => Some a
  | e :: tr' =>
      match do_event e a with
      | Some a' => run_app tr' a'
      | None => None
      end
  end.

Definition app_of (s : State) : App :=
  {| db := s; closing := []; disconnects := 0 |}.

End MongooseLib.

(* ===================================================================== *)
(** * Part II: properties                                                 *)
(* ===================================================================== *)

Module JSFacts.
Import JS.

(** ** Matching by derivatives is membership in the language *)

Lemma nullable_Matches (r : regex) : nullable r = true -> Matches r [].
Proof.
  induction r; simpl; intros H; try discriminate.
  - constructor.
  - apply andb_true_iff in H as [H1 H2].
    change (@nil N) with (@nil N ++ []). constructor; auto.
  - apply orb_true_iff in H as [H | H].
    + apply MAltL; auto.
    + apply MAltR; auto.
  - constructor.
Qed.

Lemma Matches_nil_nullable (r : regex) (s : jsstring) :
  Matches r s -> s = [] -> nullable r = true.
Proof.
  induction 1; simpl; intros E; try reflexivity; try discriminate.
  - apply app_eq_nil in E as [E1 E2].
    rewrite IHMatches1, IHMatches2; auto.
  - rewrite IHMatches; auto.
  - rewrite IHMatches; auto using orb_true_r.
Qed.

Lemma nullable_spec (r : regex) : nullable r = true <-> Matches r [].
Proof.
  split; [apply nullable_Matches | intros H; eapply Matches_nil_nullable; eauto].
Qed.

Lemma deriv_sound (c : N) (r : regex) :
  forall s, Matches (deriv c r) s -> Matches r (c :: s).
Proof.
  induction r; simpl; intros s H.
  - inversion H.
  - inversion H.
  - destruct (b c) eqn:E; inversion H; subst. constructor; assumption.
  - destruct (nullable r1) eqn:E.
    + inversion H; subst.
      * match goal with M : Matches (Cat _ _) _ |- _ => inversion M; subst end.
        change (c :: s1 ++ s2) with ((c :: s1) ++ s2).
        constructor; auto.
      * change (c :: s) with ([] ++ c :: s).
        constructor; auto using nullable_Matches.
    + inversion H; subst.
      change (c :: s1 ++ s2) with ((c :: s1) ++ s2).
      constructor; auto.
  - inversion H; subst; [apply MAltL | apply MAltR]; auto.
  - inversion H; subst.
    change (c :: s1 ++ s2) with ((c :: s1) ++ s2).
    constructor; auto.
Qed.

Lemma deriv_complete (r : regex) (w : jsstring) :
  Matches r w -> forall c s, w = c :: s -> Matches (deriv c r) s.
Proof.
  induction 1; intros a t E; simpl.
  - discriminate.
  - injection E as -> <-. rewrite H. constructor.
  - destruct s1 as [|x s1]; simpl in E.
    + subst s2.
      rewrite (Matches_nil_nullable H eq_refl).
      apply MAltR. auto.
    + injection E as -> <-.
      destruct (nullable r1).
      * apply MAltL. constructor; auto.
      * constructor; auto.
  - apply MAltL; auto.
  - apply MAltR; auto.
  - discriminate.
  - destruct s1 as [|x s1]; simpl in E.
    + apply IHMatches2 in E. exact E.
    + injection E as -> <-. constructor; auto.
Qed.

Lemma test_spec (r : regex) (s : jsstring) :
  test r s = true <-> Matches r s.
Proof.
  revert r. induction s as [|c s IH]; intros r; simpl.
  - apply nullable_spec.
  - rewrite IH. split.
    + apply deriv_sound.
    + intros H. eapply deriv_complete; eauto.
Qed.

(** ** The shapes of pattern used by the models *)

Lemma Matches_Chr (c : N) (s : jsstring) : Matches (Chr c) s <-> s = [c].
Proof.
  unfold Chr. split.
  - intros H. inversion H; subst.
    match goal with E : N.eqb _ _ = true |- _ => apply N.eqb_eq in E; subst end.
    reflexivity.
  - intros ->. constructor. apply N.eqb_refl.
Qed.

Lemma Matches_Star_Cls (p : N -> bool) (s : jsstring) :
  Matches (Star (Cls p)) s <-> Forall (fun c => p c = true) s.
Proof.
  split.
  - intros H. remember (Star (Cls p)) as r eqn:E.
    induction H; try discriminate.
    + constructor.
    + injection E as ->.
      inversion H; subst. simpl. constructor; auto.
  - induction 1 as [|c s Hc _ IH].
    + constructor.
    + change (c :: s) with ([c] ++ s). constructor; auto. constructor; auto.
Qed.

Lemma Matches_Plus_Cls (p : N -> bool) (s : jsstring) :
  Matches (Plus (Cls p)) s <-> s <> [] /\ Forall (fun c => p c = true) s.
Proof.
  unfold Plus. split.
  - intros H. inversion H; subst.
    match goal with M : Matches (Cls _) _ |- _ => inversion M; subst end.
    match goal with M : Matches (Star _) _ |- _ =>
      apply Matches_Star_Cls in M end.
    simpl. split; [discriminate | constructor; auto].
  - intros [Hne H]. destruct s as [|c s]; [congruence|].
    inversion H; subst.
    change (c :: s) with ([c] ++ s).
    constructor; [constructor; auto | apply Matches_Star_Cls; auto].
Qed.

Lemma Matches_Cat (r1 r2 : regex) (s : jsstring) :
  Matches (Cat r1 r2) s <->
  exists s1 s2, s = s1 ++ s2 /\ Matches r1 s1 /\ Matches r2 s2.
Proof.
  split.
  - intros H. inversion H; subst. eauto.
  - intros (s1 & s2 & -> & H1 & H2). constructor; auto.
Qed.

(** ** Dropping from either end *)

Lemma drop_while_suffix (p : N -> bool) (s : jsstring) :
  exists t, s = t ++ drop_while p s.
Proof.
  induction s as [|c s [t IH]]; simpl.
  - exists []. reflexivity.
  - destruct (p c).
    + exists (c :: t). simpl. congruence.
    + exists []. reflexivity.
Qed.

Lemma drop_while_end_prefix (p : N -> bool) (s : jsstring) :
  exists t, s = drop_while_end p s ++ t.
Proof.
  unfold drop_while_end.
  destruct (drop_while_suffix p (rev s)) as [t E].
  exists (rev t).
  rewrite <- rev_app_distr, <- E, rev_involutive. reflexivity.
Qed.

Lemma drop_while_starts (p : N -> bool) (s : jsstring) :
  starts_with p (drop_while p s) = false.
Proof.
  induction s as [|c s IH]; simpl; auto.
  destruct (p c) eqn:E; simpl; auto.
Qed.

Lemma drop_while_end_ends (p : N -> bool) (s : jsstring) :
  ends_with p (drop_while_end p s) = false.
Proof.
  unfold ends_with, drop_while_end.
  rewrite rev_involutive. apply drop_while_starts.
Qed.

Lemma drop_while_end_starts (p : N -> bool) (s : jsstring) :
  starts_with p s = false -> starts_with p (drop_while_end p s) = false.
Proof.
  intros H. destruct (drop_while_end_prefix p s) as [t E].
  destruct (drop_while_end p s) as [|c u]; simpl; auto.
  rewrite E in H. exact H.
Qed.

Lemma drop_while_id (p : N -> bool) (s : jsstring) :
  starts_with p s = false -> drop_while p s = s.
Proof.
  destruct s as [|c s]; simpl; auto. intros ->. reflexivity.
Qed.

Lemma drop_while_end_id (p : N -> bool) (s : jsstring) :
  ends_with p s = false -> drop_while_end p s = s.
Proof.
  unfold ends_with, drop_while_end. intros H.
  rewrite drop_while_id by assumption. apply rev_involutive.
Qed.

Lemma Forall_drop_while (P : N -> Prop) (p : N -> bool) (s : jsstring) :
  Forall P s -> Forall P (drop_while p s).
Proof.
  intros H. destruct (drop_while_suffix p s) as [t E].
  rewrite E in H. apply Forall_app in H. tauto.
Qed.

Lemma Forall_drop_while_end (P : N -> Prop) (p : N -> bool) (s : jsstring) :
  Forall P s -> Forall P (drop_while_end p s).
Proof.
  intros H. destruct (drop_while_end_prefix p s) as [t E].
  rewrite E in H. apply Forall_app in H. tauto.
Qed.

Lemma adjacent_app_l (p : N -> bool) (s t : jsstring) :
  adjacent p (s ++ t) = false -> adjacent p s = false.
Proof.
  induction s as [|a s IH]; simpl; auto.
  intros H. apply orb_false_iff in H as [H1 H2].
  rewrite IH by assumption. rewrite orb_false_r.
  destruct (p a); simpl in *; auto.
  destruct s; simpl in *; auto.
Qed.

Lemma adjacent_app_r (p : N -> bool) (s t : jsstring) :
  adjacent p (s ++ t) = false -> adjacent p t = false.
Proof.
  induction s as [|a s IH]; simpl; auto.
  intros H. apply orb_false_iff in H as [_ H]. auto.
Qed.

Lemma adjacent_drop_while (p q : N -> bool) (s : jsstring) :
  adjacent p s = false -> adjacent p (drop_while q s) = false.
Proof.
  intros H. destruct (drop_while_suffix q s) as [t E].
  rewrite E in H. eapply adjacent_app_r; eauto.
Qed.

Lemma adjacent_drop_while_end (p q : N -> bool) (s : jsstring) :
  adjacent p s = false -> adjacent p (drop_while_end q s) = false.
Proof.
  intros H. destruct (drop_while_end_prefix q s) as [t E].
  rewrite E in H. eapply adjacent_app_l; eauto.
Qed.

End JSFacts.

Module EventFacts.
Import JS JSFacts EventModel.

(** ** Code units *)

Ltac char_arith :=
  unfold slug_char, keeps, is_sep, is_word, is_space, is_hyphen, is_upper,
    is_lower, is_digit, is_ascii, ascii_lower, between,
    c_hyphen, c_underscore in *;
  repeat rewrite ?orb_true_iff, ?orb_false_iff, ?andb_true_iff,
    ?andb_false_iff, ?N.leb_le, ?N.leb_gt, ?N.eqb_eq, ?N.eqb_neq,
    ?N.ltb_lt, ?N.ltb_ge in *;
  lia.

Lemma slug_char_not_space (c : N) : slug_char c = true -> is_space c = false.
Proof. intros H. char_arith. Qed.

Lemma slug_char_not_upper (c : N) : slug_char c = true -> is_upper c = false.
Proof. intros H. char_arith. Qed.

Lemma slug_char_ascii (c : N) : slug_char c = true -> is_ascii c = true.
Proof. intros H. char_arith. Qed.

Lemma slug_char_sep (c : N) : slug_char c = true -> is_sep c = is_hyphen c.
Proof.
  intros H. unfold is_sep. rewrite (slug_char_not_space c H). simpl.
  destruct (is_hyphen c) eqn:E; [apply orb_true_r|].
  rewrite orb_false_r. char_arith.
Qed.

Lemma slug_char_keeps (c : N) : slug_char c = true -> keeps c = true.
Proof.
  unfold slug_char, keeps, is_word.
  destruct (is_lower c), (is_digit c), (is_hyphen c), (is_upper c),
    (is_space c), (c =? c_underscore)%N; simpl; congruence.
Qed.

Lemma slug_char_lower_id (c : N) : slug_char c = true -> ascii_lower c = c.
Proof.
  intros H. unfold ascii_lower. rewrite slug_char_not_upper; auto.
Qed.

Lemma is_sep_hyphen : is_sep c_hyphen = true.
Proof. reflexivity. Qed.

Lemma is_hyphen_eq (c : N) : is_hyphen c = true -> c = c_hyphen.
Proof. unfold is_hyphen. apply N.eqb_eq. Qed.

(** What is left of a lower-cased code unit that passes the first
    replacement and is not replaced by the second. *)
Lemma kept_unit_slug_char (c : N) :
  keeps c = true -> is_upper c = false -> is_sep c = false ->
  slug_char c = true.
Proof.
  unfold slug_char, keeps, is_sep, is_word.
  destruct (is_lower c), (is_digit c), (is_hyphen c), (is_upper c),
    (is_space c), (c =? c_underscore)%N; simpl; congruence.
Qed.

(** ** The second replacement *)

Lemma replace_sep_runs_units (P : N -> Prop) (s : jsstring) :
  Forall P s ->
  forall b, Forall (fun c => c = c_hyphen \/ (P c /\ is_sep c = false))
                   (replace_sep_runs b s).
Proof.
  induction 1 as [|c s Hc _ IH]; intros b; simpl.
  - constructor.
  - destruct (is_sep c) eqn:E.
    + destruct b; [apply IH | constructor; auto].
    + constructor; auto.
Qed.

Lemma replace_sep_runs_adjacent (s : jsstring) :
  forall b,
    adjacent is_sep (replace_sep_runs b s) = false
    /\ (b = true -> starts_with is_sep (replace_sep_runs b s) = false).
Proof.
  induction s as [|c s IH]; intros b; simpl.
  - auto.
  - destruct (is_sep c) eqn:E.
    + destruct b.
      * apply IH.
      * destruct (IH true) as [H1 H2]. simpl.
        rewrite H1, H2 by reflexivity.
        split; [reflexivity | discriminate].
    + destruct (IH false) as [H1 _]. simpl.
      rewrite E, H1. auto.
Qed.

Lemma replace_sep_runs_id (s : jsstring) :
  Forall (fun c => slug_char c = true) s ->
  adjacent is_sep s = false ->
  forall b, (b = true -> starts_with is_sep s = false) ->
            replace_sep_runs b s = s.
Proof.
  induction 1 as [|c s Hc Hs IH]; intros Hadj b Hb; simpl.
  - reflexivity.
  - simpl in Hadj. apply orb_false_iff in Hadj as [Hcs Hadj].
    destruct (is_sep c) eqn:E.
    + destruct b; [simpl in Hb; rewrite Hb in E; [discriminate | reflexivity]|].
      simpl in Hcs.
      rewrite (IH Hadj true (fun _ => Hcs)).
      rewrite slug_char_sep in E by assumption.
      apply is_hyphen_eq in E. congruence.
    + rewrite (IH Hadj false); [reflexivity | discriminate].
Qed.

(** ** The derived slug *)

Section Slug.
Variable eng : Engine.
Hypothesis Hlow : lowercase_ok eng.

Lemma slugify_units (t : jsstring) :
  Forall (fun c => slug_char c = true) (slugify eng t).
Proof.
  unfold slugify, strip_edge_hyphens, remove_special, trim.
  apply Forall_drop_while_end, Forall_drop_while.
  set (u := drop_while_end is_space (drop_while is_space (toLowerCase eng t))).
  assert (Hu : Forall (fun c => is_upper c = false) u).
  { apply Forall_drop_while_end, Forall_drop_while, (proj1 Hlow). }
  assert (Hf : Forall (fun c => keeps c = true /\ is_upper c = false)
                      (filter keeps u)).
  { apply Forall_forall. intros c Hc. apply filter_In in Hc as [Hin Hk].
    split; auto. rewrite Forall_forall in Hu. auto. }
  eapply Forall_impl; [| apply (replace_sep_runs_units Hf)].
  intros c [-> | [[Hk Hup] Hsep]].
  - reflexivity.
  - apply kept_unit_slug_char; auto.
Qed.

Lemma slugify_starts (t : jsstring) :
  starts_with is_hyphen (slugify eng t) = false.
Proof.
  unfold slugify, strip_edge_hyphens.
  apply drop_while_end_starts, drop_while_starts.
Qed.

Lemma slugify_ends (t : jsstring) :
  ends_with is_hyphen (slugify eng t) = false.
Proof.
  unfold slugify, strip_edge_hyphens. apply drop_while_end_ends.
Qed.

Lemma slugify_adjacent (t : jsstring) :
  adjacent is_sep (slugify eng t) = false.
Proof.
  unfold slugify, strip_edge_hyphens.
  apply adjacent_drop_while_end, adjacent_drop_while.
  apply replace_sep_runs_adjacent.
Qed.

Lemma toLowerCase_slug_units (s : jsstring) :
  Forall (fun c => slug_char c = true) s -> toLowerCase eng s = s.
Proof.
  intros H. rewrite (proj2 Hlow).
  - induction H as [|c s Hc _ IH]; simpl; [reflexivity|].
    rewrite slug_char_lower_id, IH; auto.
  - eapply Forall_impl; [| exact H]. apply slug_char_ascii.
Qed.

(** A string of slug shape is a fixed point of the derivation. *)
Lemma slugify_fixed (s : jsstring) :
  Forall (fun c => slug_char c = true) s ->
  starts_with is_hyphen s = false ->
  ends_with is_hyphen s = false ->
  adjacent is_sep s = false ->
  slugify eng s = s.
Proof.
  intros Hs Hst Hen Hadj.
  assert (Hrev : Forall (fun c => slug_char c = true) (rev s)).
  { apply Forall_rev. exact Hs. }
  assert (Hnsp : forall c, slug_char c = true -> is_space c = false).
  { apply slug_char_not_space. }
  unfold slugify. rewrite toLowerCase_slug_units by assumption.
  assert (Et : trim s = s).
  { unfold trim. rewrite drop_while_id.
    - apply drop_while_end_id. unfold ends_with.
      destruct Hrev; simpl; auto.
    - destruct Hs; simpl; auto. }
  rewrite Et.
  assert (Ef : remove_special s = s).
  { unfold remove_special. apply forallb_filter_id.
    apply forallb_forall. rewrite Forall_forall in Hs.
    intros c Hc. apply slug_char_keeps. auto. }
  rewrite Ef.
  rewrite replace_sep_runs_id by (auto; discriminate).
  unfold strip_edge_hyphens.
  rewrite drop_while_id by assumption.
  apply drop_while_end_id. assumption.
Qed.

End Slug.

Lemma utc_engine_lowercase_ok : lowercase_ok utc_engine.
Proof.
  split; simpl.
  - intros s. induction s as [|c s IH]; simpl; constructor; auto.
    unfold ascii_lower. destruct (is_upper c) eqn:E; [|assumption].
    char_arith.
  - reflexivity.
Qed.

(** ** The shape of the slug *)



(** C9: the slug derivation is idempotent. *)
Theorem C9_slugify_idempotent (eng : Engine) (Hlow : lowercase_ok eng)
    (t : jsstring) :
  slugify eng (slugify eng t) = slugify eng t.
Proof.
  apply (slugify_fixed Hlow).
  - apply (slugify_units Hlow).
  - apply slugify_starts.
  - apply slugify_ends.
  - apply slugify_adjacent.
Qed.

Lemma C9_slugify_idempotent_witness :
  slugify utc_engine (slugify utc_engine (lit "Event_With   Underscores!"))
  = slugify utc_engine (lit "Event_With   Underscores!").
Proof.
  apply (C9_slugify_idempotent utc_engine_lowercase_ok).
Defined.

(** ** Which steps run *)

Lemma and_then_ok (f g : step) (d d' : Doc) :
  f d = (d', None) -> and_then f g d = g d'.
Proof. unfold and_then. intros ->. reflexivity. Qed.

Lemma and_then_err (f g : step) (d d' : Doc) (e : string) :
  f d = (d', Some e) -> and_then f g d = (d', Some e).
Proof. unfold and_then. intros ->. reflexivity. Qed.

Lemma guards_fields (d : Doc) :
  fst (and_then agenda_guard tags_guard d) = d.
Proof.
  unfold and_then, agenda_guard, tags_guard.
  destruct (List.length (agenda (fields d)) =? 0)%nat; simpl; auto.
  destruct (List.length (tags (fields d)) =? 0)%nat; reflexivity.
Qed.

Lemma date_step_slug (eng : Engine) (d : Doc) :
  slug (fields (fst (date_step eng d))) = slug (fields d)
  /\ isNew (fst (date_step eng d)) = isNew d
  /\ modifiedPaths (fst (date_step eng d)) = modifiedPaths d.
Proof.
  unfold date_step.
  destruct (isNew d || isModified d "date"); auto.
  destruct (date_try eng (date (fields d))); auto.
Qed.

Lemma time_step_slug (eng : Engine) (d : Doc) :
  slug (fields (fst (time_step eng d))) = slug (fields d).
Proof.
  unfold time_step.
  destruct (isNew d || isModified d "time"); auto.
  destruct (negb (test timeRegex (time (fields d)))); auto.
  destruct (time_try eng (time (fields d))); auto.
Qed.

(** After the slug step, the hook leaves the slug alone. *)
Lemma later_steps_slug (eng : Engine) (d : Doc) :
  slug (fields (fst (and_then (date_step eng)
                       (and_then (time_step eng)
                          (and_then agenda_guard tags_guard)) d)))
  = slug (fields d).
Proof.
  destruct (date_step_slug eng d) as [Hs _].
  unfold and_then at 1.
  destruct (date_step eng d) as [d1 [e|]] eqn:E1; simpl in *; auto.
  rewrite <- Hs.
  pose proof (time_step_slug eng d1) as Ht.
  unfold and_then at 1.
  destruct (time_step eng d1) as [d2 [e|]] eqn:E2; simpl in *; auto.
  rewrite guards_fields. exact Ht.
Qed.

Lemma pre_save_slug (eng : Engine) (d : Doc) :
  slug (fields (fst (pre_save eng d)))
  = slug (fields (fst (slug_step eng d))).
Proof.
  unfold pre_save, and_then at 1.
  destruct (slug_step eng d) as [d1 [e|]] eqn:E; simpl; auto.
  apply later_steps_slug.
Qed.

Lemma pre_save_untouched (eng : Engine) (d : Doc) :
  isNew d = false ->
  isModified d "title" = false ->
  isModified d "date" = false ->
  isModified d "time" = false ->
  fst (pre_save eng d) = d.
Proof.
  intros Hn Ht Hd Hm.
  unfold pre_save.
  rewrite (@and_then_ok _ _ d d) by (unfold slug_step; rewrite Hn, Ht; auto).
  rewrite (@and_then_ok _ _ d d) by (unfold date_step; rewrite Hn, Hd; auto).
  rewrite (@and_then_ok _ _ d d) by (unfold time_step; rewrite Hn, Hm; auto).
  apply guards_fields.
Qed.

(** C7: a save of a document whose title is unmodified keeps the slug; a
    save of a document whose title is new or modified stores the slug
    derived from that title; a save of a document with none of title, date
    and time modified changes no field, as does the save of a document
    that has just been saved. *)
Theorem C7_resave (eng : Engine) (d : Doc) :
  (isNew d = false -> isModified d "title" = false ->
   slug (fields (fst (pre_save eng d))) = slug (fields d))
  /\ (isNew d || isModified d "title" = true ->
      slug (fields (fst (pre_save eng d)))
      = toLowerCase eng (slugify eng (title (fields d))))
  /\ (isNew d = false -> isModified d "title" = false ->
      isModified d "date" = false -> isModified d "time" = false ->
      fst (pre_save eng d) = d)
  /\ fst (pre_save eng (after_save d)) = after_save d.
Proof.
  repeat split.
  - intros Hn Ht. rewrite pre_save_slug. unfold slug_step.
    rewrite Hn, Ht. reflexivity.
  - intros H. rewrite pre_save_slug. unfold slug_step.
    rewrite H. reflexivity.
  - apply pre_save_untouched.
  - apply pre_save_untouched; reflexivity.
Qed.

Lemma C7_resave_witness :
  let d := new_event (lit "Original Title") (lit "2024-12-15")
                     (lit "09:00") in
  let d1 := after_save (fst (pre_save utc_engine d)) in
  slug (fields d1) = lit "original-title"
  /\ slug (fields (fst (pre_save utc_engine d1))) = lit "original-title"
  /\ fst (pre_save utc_engine d1) = d1.
Proof.
  intros d d1.
  destruct (C7_resave utc_engine d) as [_ [Hnew _]].
  destruct (C7_resave utc_engine d1) as [Hkeep [_ [Hall _]]].
  assert (E : slug (fields d1) = lit "original-title").
  { change (slug (fields d1))
      with (slug (fields (fst (pre_save utc_engine d)))).
    rewrite (Hnew eq_refl). reflexivity. }
  split; [exact E|]. split.
  - rewrite (Hkeep eq_refl eq_refl). exact E.
  - exact (Hall eq_refl eq_refl eq_refl eq_refl).
Defined.

(** ** Dates and times *)

Lemma dec_digits_units (n : nat) :
  forall v, Forall (fun c => is_digit c = true) (dec_digits n v).
Proof.
  induction n as [|n IH]; intros v; cbn [dec_digits].
  - constructor.
  - apply Forall_app. split; [apply IH|].
    constructor; [|constructor].
    pose proof (Z.mod_pos_bound v 10 ltac:(lia)) as Hr.
    set (r := (v mod 10)%Z) in *. clearbody r.
    unfold is_digit, between.
    apply andb_true_iff. split; apply N.leb_le; lia.
Qed.

Lemma dec_digits_length (n : nat) :
  forall v, List.length (dec_digits n v) = n.
Proof.
  induction n as [|n IH]; intros v; simpl; auto.
  rewrite length_app, IH. simpl. lia.
Qed.

Lemma digit_not_T (c : N) : is_digit c = true -> c <> c_T.
Proof.
  unfold is_digit, between, c_T. intros H E. subst c. discriminate.
Qed.

Lemma year_text_units (y : Z) : Forall (fun c => c <> c_T) (year_text y).
Proof.
  unfold year_text.
  assert (D : forall n v, Forall (fun c => c <> c_T) (dec_digits n v)).
  { intros n v. eapply Forall_impl; [|apply dec_digits_units].
    apply digit_not_T. }
  destruct ((0 <=? y)%Z && (y <=? 9999)%Z); auto.
  constructor; auto.
  destruct (y <? 0)%Z; discriminate.
Qed.

Lemma iso_date_text_units (t : Z) :
  Forall (fun c => c <> c_T) (iso_date_text t).
Proof.
  unfold iso_date_text.
  destruct (civil_from_days (t / msPerDay)) as [[y m] d].
  assert (D : forall n v, Forall (fun c => c <> c_T) (dec_digits n v)).
  { intros n v. eapply Forall_impl; [|apply dec_digits_units].
    apply digit_not_T. }
  assert (H : Forall (fun c => c <> c_T) [c_hyphen])
    by (repeat constructor; discriminate).
  apply Forall_app; split; [apply year_text_units|].
  apply Forall_app; split; [exact H|].
  apply Forall_app; split; [apply D|].
  apply Forall_app; split; [exact H | apply D].
Qed.

Lemma split_head_app (sep : N) (a b : jsstring) :
  Forall (fun c => c <> sep) a -> split_head sep (a ++ sep :: b) = a.
Proof.
  induction 1 as [|c a Hc _ IH]; simpl.
  - rewrite N.eqb_refl. reflexivity.
  - apply N.eqb_neq in Hc. rewrite Hc, IH. reflexivity.
Qed.

(** [d.toISOString().split('T')[0]] is the text of the UTC calendar day. *)
Lemma toISOString_split (t : Z) :
  split_head c_T (toISOString t) = iso_date_text t.
Proof.
  unfold toISOString. simpl app.
  apply split_head_app, iso_date_text_units.
Qed.

(** With a year from 0 to 9999 the text is [YYYY-MM-DD], ten code
    units. *)
Lemma iso_date_text_shape (t : Z) :
  let '(y, m, d) := civil_from_days (t / msPerDay) in
  (0 <= y <= 9999)%Z ->
  iso_date_text t
  = dec_digits 4 y ++ [c_hyphen] ++ dec_digits 2 m ++ [c_hyphen]
    ++ dec_digits 2 d
  /\ List.length (iso_date_text t) = 10%nat.
Proof.
  unfold iso_date_text.
  destruct (civil_from_days (t / msPerDay)) as [[y m] d].
  intros Hy. unfold year_text.
  replace ((0 <=? y)%Z && (y <=? 9999)%Z) with true
    by (symmetry; apply andb_true_iff; split; apply Z.leb_le; lia).
  split; [reflexivity|].
  rewrite !length_app, !dec_digits_length. reflexivity.
Qed.

(** A string in the ECMAScript format with a zone is read alike by every
    engine. *)
Lemma Date_parse_example (eng : Engine) :
  Date_parse eng (lit "2024-12-15T10:30:00.000Z") = Some 1734258600000%Z.
Proof. reflexivity. Qed.

(** The slug step passes no error and touches the slug only. *)
Lemma slug_step_shape (eng : Engine) (d : Doc) :
  exists v, slug_step eng d = (put_slug v d, None).
Proof.
  unfold slug_step. destruct (isNew d || isModified d "title").
  - eexists. reflexivity.
  - exists (slug (fields d)). destruct d as [[] ? ?]. reflexivity.
Qed.

Lemma time_step_date (eng : Engine) (d : Doc) :
  date (fields (fst (time_step eng d))) = date (fields d).
Proof.
  unfold time_step.
  destruct (isNew d || isModified d "time"); auto.
  destruct (negb (test timeRegex (time (fields d)))); auto.
  destruct (time_try eng (time (fields d))); auto.
Qed.

Lemma later_steps_date (eng : Engine) (d : Doc) :
  date (fields (fst (and_then (time_step eng)
                       (and_then agenda_guard tags_guard) d)))
  = date (fields d).
Proof.
  pose proof (time_step_date eng d) as Ht.
  unfold and_then at 1.
  destruct (time_step eng d) as [d2 [e|]]; simpl in *; auto.
  rewrite guards_fields. exact Ht.
Qed.

(** C3, as the code has it: when the date is new or modified, a date that
    does not parse makes the date step, and with it the hook, fail with
    the error ["Date must be in a valid format (YYYY-MM-DD or ISO
    string)"], the date being left as it is; a date that parses to the
    instant [t] is replaced by the text of the UTC calendar day of [t],
    the part of the ISO string before [T], and that is the date of the
    document when the hook ends; ["2024-12-15T10:30:00.000Z"] is stored
    as ["2024-12-15"]. *)
Theorem C3_date_normalization (eng : Engine) (d : Doc) :
  isNew d || isModified d "date" = true ->
  (Date_parse eng (date (fields d)) = None ->
   date_step eng d
   = (d, Some "Date must be in a valid format (YYYY-MM-DD or ISO string)"%string)
   /\ snd (pre_save eng d)
      = Some "Date must be in a valid format (YYYY-MM-DD or ISO string)"%string
   /\ date (fields (fst (pre_save eng d))) = date (fields d))
  /\ (forall t, Date_parse eng (date (fields d)) = Some t ->
      date_step eng d = (assign_date (iso_date_text t) d, None)
      /\ date (fields (fst (pre_save eng d))) = iso_date_text t)
  /\ (date (fields d) = lit "2024-12-15T10:30:00.000Z" ->
      date_step eng d = (assign_date (lit "2024-12-15") d, None)).
Proof.
  intros Hd.
  assert (Hnone : Date_parse eng (date (fields d)) = None ->
    forall v, date_step eng (put_slug v d)
    = (put_slug v d,
       Some "Date must be in a valid format (YYYY-MM-DD or ISO string)"%string)).
  { intros Hp v. unfold date_step, date_try.
    change (isNew (put_slug v d) || isModified (put_slug v d) "date")
      with (isNew d || isModified d "date").
    change (date (fields (put_slug v d))) with (date (fields d)).
    rewrite Hd, Hp. reflexivity. }
  assert (Hsome : forall t, Date_parse eng (date (fields d)) = Some t ->
    forall v, date_step eng (put_slug v d)
    = (assign_date (iso_date_text t) (put_slug v d), None)).
  { intros t Hp v. unfold date_step, date_try.
    change (isNew (put_slug v d) || isModified (put_slug v d) "date")
      with (isNew d || isModified d "date").
    change (date (fields (put_slug v d))) with (date (fields d)).
    rewrite Hd, Hp, toISOString_split. reflexivity. }
  destruct (slug_step_shape eng d) as [v Ev].
  split; [|split].
  - intros Hp. split; [|split].
    + unfold date_step, date_try. rewrite Hd, Hp. reflexivity.
    + unfold pre_save. rewrite (@and_then_ok _ _ _ _ Ev).
      rewrite (@and_then_err _ _ _ _ _ (Hnone Hp v)). reflexivity.
    + unfold pre_save. rewrite (@and_then_ok _ _ _ _ Ev).
      rewrite (@and_then_err _ _ _ _ _ (Hnone Hp v)). reflexivity.
  - intros t Hp. split.
    + unfold date_step, date_try. rewrite Hd, Hp, toISOString_split.
      reflexivity.
    + unfold pre_save. rewrite (@and_then_ok _ _ _ _ Ev).
      rewrite (@and_then_ok _ _ _ _ (Hsome t Hp v)).
      rewrite later_steps_date. reflexivity.
  - intros E. unfold date_step, date_try.
    rewrite Hd, E, Date_parse_example, toISOString_split. reflexivity.
Qed.

Lemma C3_date_normalization_witness :
  let d := new_event (lit "Tech Conference 2024")
                     (lit "2024-12-15T10:30:00.000Z") (lit "09:00") in
  isNew d || isModified d "date" = true
  /\ date_step utc_engine d = (assign_date (lit "2024-12-15") d, None).
Proof.
  intros d. split; [reflexivity|].
  destruct (@C3_date_normalization utc_engine d eq_refl) as [_ [_ H]].
  exact (H eq_refl).
Defined.

(** C3 with the message ["invalid date format"] fails: the message thrown
    inside the [try] never leaves it, and the save fails with the message
    of the [catch]. *)
Lemma C3_counterexample :
  let d := new_event (lit "Tech Conference 2024") (lit "invalid-date")
                     (lit "09:00") in
  Date_parse utc_engine (date (fields d)) = None
  /\ snd (pre_save utc_engine d)
     = Some "Date must be in a valid format (YYYY-MM-DD or ISO string)"%string
  /\ snd (pre_save utc_engine d) <> Some "invalid date format"%string
  /\ snd (pre_save utc_engine d) <> Some "Invalid date format"%string.
Proof.
  intros d. repeat split; try reflexivity; intros H; vm_compute in H;
    discriminate.
Qed.

(** The hook, when its date step and its guards pass: the outcome is that
    of the time step. *)
Lemma date_step_frame (eng : Engine) (d : Doc) :
  let d2 := fst (date_step eng d) in
  time (fields d2) = time (fields d)
  /\ isNew d2 = isNew d
  /\ modifiedPaths d2 = modifiedPaths d
  /\ agenda (fields d2) = agenda (fields d)
  /\ tags (fields d2) = tags (fields d).
Proof.
  unfold date_step.
  destruct (isNew d || isModified d "date"); simpl; auto.
  destruct (date_try eng (date (fields d))); simpl; auto.
Qed.

Lemma date_step_passes (eng : Engine) (d : Doc) (t : Z) :
  Date_parse eng (date (fields d)) = Some t -> snd (date_step eng d) = None.
Proof.
  intros Hp. unfold date_step, date_try. rewrite Hp.
  destruct (isNew d || isModified d "date"); reflexivity.
Qed.

Lemma guards_pass (d : Doc) :
  agenda (fields d) <> [] -> tags (fields d) <> [] ->
  and_then agenda_guard tags_guard d = (d, None).
Proof.
  intros Ha Ht. unfold and_then, agenda_guard, tags_guard.
  destruct (agenda (fields d)) eqn:Ea; [congruence|].
  destruct (tags (fields d)) eqn:Et; [congruence|].
  simpl. rewrite Et. reflexivity.
Qed.

Lemma pre_save_time (eng : Engine) (d : Doc) (t : Z) (v : jsstring) :
  Date_parse eng (date (fields d)) = Some t ->
  agenda (fields d) <> [] -> tags (fields d) <> [] ->
  (forall d2,
      isNew d2 = isNew d -> modifiedPaths d2 = modifiedPaths d ->
      time (fields d2) = time (fields d) ->
      exists d3,
        time_step eng d2 = (d3, None)
        /\ time (fields d3) = v
        /\ agenda (fields d3) = agenda (fields d2)
        /\ tags (fields d3) = tags (fields d2)) ->
  snd (pre_save eng d) = None
  /\ time (fields (fst (pre_save eng d))) = v.
Proof.
  intros Hdate Hag Htg Htime.
  destruct (slug_step_shape eng d) as [w Ev].
  set (d1 := put_slug w d) in *.
  pose proof (date_step_frame eng d1) as (F1 & F2 & F3 & F4 & F5).
  pose proof (date_step_passes eng d1 Hdate) as Hpass.
  destruct (date_step eng d1) as [d2 o] eqn:E2.
  cbn [fst snd] in F1, F2, F3, F4, F5, Hpass. subst o.
  destruct (Htime d2 F2 F3 F1) as (d3 & E3 & Hv & G4 & G5).
  unfold pre_save.
  rewrite (@and_then_ok _ _ _ _ Ev).
  rewrite (@and_then_ok _ _ _ _ E2).
  rewrite (@and_then_ok _ _ _ _ E3).
  rewrite guards_pass.
  - split; [reflexivity | exact Hv].
  - rewrite G4, F4. exact Hag.
  - rewrite G5, F5. exact Htg.
Qed.

(** *** Times *)

(** A time that matches the pattern is stored as it was written. *)
Lemma time_step_strict (eng : Engine) (d : Doc) :
  test timeRegex (time (fields d)) = true -> time_step eng d = (d, None).
Proof.
  intros H. unfold time_step. rewrite H. simpl.
  destruct (isNew d || isModified d "time"); reflexivity.
Qed.

(** A time that neither matches the pattern nor parses is refused. *)
Lemma time_step_rejects (eng : Engine) (d : Doc) :
  isNew d || isModified d "time" = true ->
  test timeRegex (time (fields d)) = false ->
  Date_parse eng (lit "2000-01-01T" ++ time (fields d)) = None ->
  time_step eng d = (d, Some "Time must be in HH:MM format"%string).
Proof.
  intros Hd Hr Hp. unfold time_step, time_try. rewrite Hd, Hr, Hp.
  reflexivity.
Qed.

(** Hour 25 is out of bounds for every engine. *)
Lemma time_25_00_rejected (eng : Engine) (d : Doc) :
  isNew d || isModified d "time" = true ->
  time (fields d) = lit "25:00" ->
  time_step eng d = (d, Some "Time must be in HH:MM format"%string).
Proof.
  intros Hd Ht. apply time_step_rejects; auto; rewrite Ht; reflexivity.
Qed.

(** C1, on the code: a time with a one-digit hour that matches the strict
    pattern is stored as it is; ["9:30"] stays ["9:30"] and does not become
    ["09:30"], also when the hook as a whole passes. *)
Theorem C1_strict_time_kept (eng : Engine) (d : Doc) :
  isNew d || isModified d "time" = true ->
  time (fields d) = lit "9:30" ->
  test timeRegex (time (fields d)) = true
  /\ time_step eng d = (d, None)
  /\ time (fields (fst (time_step eng d))) = lit "9:30"
  /\ time (fields (fst (time_step eng d))) <> lit "09:30"
  /\ (forall t,
        Date_parse eng (date (fields d)) = Some t ->
        agenda (fields d) <> [] -> tags (fields d) <> [] ->
        snd (pre_save eng d) = None
        /\ time (fields (fst (pre_save eng d))) = lit "9:30").
Proof.
  intros Hd Ht.
  assert (Hm : test timeRegex (time (fields d)) = true)
    by (rewrite Ht; reflexivity).
  split; [exact Hm|].
  rewrite (time_step_strict eng d Hm). cbn [fst].
  split; [reflexivity|]. split; [exact Ht|].
  split; [rewrite Ht; discriminate|].
  intros t Hdate Hag Htg. rewrite <- Ht.
  apply (pre_save_time eng d Hdate Hag Htg).
  intros d2 _ _ E3. exists d2.
  rewrite time_step_strict by (rewrite E3; exact Hm). auto.
Qed.

Lemma C1_strict_time_kept_witness :
  let d := new_event (lit "Tech Conference 2024") (lit "2024-12-15")
                     (lit "9:30") in
  time (fields (fst (pre_save utc_engine d))) = lit "9:30"
  /\ time_step utc_engine d = (d, None).
Proof.
  intros d. split; [reflexivity|].
  exact (proj1 (proj2 (@C1_strict_time_kept utc_engine d eq_refl eq_refl))).
Defined.

Lemma es_parse_24_00 (tza : Z) :
  (Z.abs tza < msPerDay)%Z ->
  es_parse tza (lit "2000-01-01T24:00") = EsTime (946771200000 - tza)%Z.
Proof.
  intros H. unfold es_parse.
  replace (parse_iso (lit "2000-01-01T24:00"))
    with (Some {| f_year := 2000; f_month := 1; f_day := 1;
                  f_has_time := true;
                  f_hour := 24; f_min := 0; f_sec := 0; f_ms := 0;
                  f_zone := None |}) by reflexivity.
  cbv beta iota.
  replace (negb (fields_in_range _)) with false by reflexivity.
  replace (days_in_month _ _ <? _)%Z with false by reflexivity.
  unfold fields_time.
  cbn [f_year f_month f_day f_has_time f_hour f_min f_sec f_ms f_zone].
  replace (days_from_civil 2000 1 1 * msPerDay + 24 * msPerHour
           + 0 * msPerMinute + 0 * msPerSecond + 0)%Z
    with 946771200000%Z by reflexivity.
  replace (Z.abs (946771200000 - tza) <=? maxTimeValue)%Z with true.
  - reflexivity.
  - symmetry. apply Z.leb_le. unfold msPerDay, maxTimeValue in *. lia.
Qed.

Lemma toTimeString_midnight (eng : Engine) :
  slice0 5 (toTimeString eng (946771200000 - LocalTZA eng)) = lit "00:00".
Proof.
  unfold toTimeString.
  replace (946771200000 - LocalTZA eng + LocalTZA eng)%Z
    with 946771200000%Z by lia.
  reflexivity.
Qed.

Lemma time_step_24_00 (eng : Engine) (d : Doc) :
  (Z.abs (LocalTZA eng) < msPerDay)%Z ->
  isNew d || isModified d "time" = true ->
  time (fields d) = lit "24:00" ->
  Date_parse eng (lit "2000-01-01T" ++ time (fields d))
  = Some (946771200000 - LocalTZA eng)%Z
  /\ time_step eng d = (assign_time (lit "00:00") d, None).
Proof.
  intros Htz Hd Ht.
  assert (Hp : Date_parse eng (lit "2000-01-01T" ++ time (fields d))
               = Some (946771200000 - LocalTZA eng)%Z).
  { rewrite Ht. unfold Date_parse.
    change (lit "2000-01-01T" ++ lit "24:00") with (lit "2000-01-01T24:00").
    rewrite es_parse_24_00 by assumption. reflexivity. }
  split; [exact Hp|].
  unfold time_step, time_try. rewrite Hd, Hp.
  replace (test timeRegex (time (fields d))) with false
    by (rewrite Ht; reflexivity).
  simpl negb. cbv iota. rewrite toTimeString_midnight. reflexivity.
Qed.

(** C10: ["24:00"] does not match the strict pattern, parses as the end of
    the day, that is midnight of the next day in local time, and is stored
    as ["00:00"] without an error; with a date that parses and agenda and
    tags that are not empty, the hook as a whole passes no error and the
    document leaves it with the time ["00:00"]. *)
Theorem C10_time_24_00 (eng : Engine) (d : Doc) :
  (Z.abs (LocalTZA eng) < msPerDay)%Z ->
  isNew d || isModified d "time" = true ->
  time (fields d) = lit "24:00" ->
  test timeRegex (time (fields d)) = false
  /\ Date_parse eng (lit "2000-01-01T" ++ time (fields d))
     = Some (946771200000 - LocalTZA eng)%Z
  /\ time_step eng d = (assign_time (lit "00:00") d, None)
  /\ (forall t,
        Date_parse eng (date (fields d)) = Some t ->
        agenda (fields d) <> [] -> tags (fields d) <> [] ->
        snd (pre_save eng d) = None
        /\ time (fields (fst (pre_save eng d))) = lit "00:00").
Proof.
  intros Htz Hd Ht.
  destruct (time_step_24_00 eng d Htz Hd Ht) as [Hp Hs].
  split; [rewrite Ht; reflexivity|]. split; [exact Hp|].
  split; [exact Hs|].
  intros t Hdate Hag Htg.
  apply (pre_save_time eng d Hdate Hag Htg).
  intros d2 E1 E2 E3.
  exists (assign_time (lit "00:00") d2).
  split; [|repeat split].
  apply time_step_24_00; auto.
  - unfold isModified. rewrite E1, E2. exact Hd.
  - rewrite E3. exact Ht.
Qed.

Lemma C10_time_24_00_witness :
  let d := new_event (lit "Tech Conference 2024") (lit "2024-12-15")
                     (lit "24:00") in
  time_step utc_engine d = (assign_time (lit "00:00") d, None)
  /\ snd (pre_save utc_engine d) = None.
Proof.
  intros d. split; [|reflexivity].
  refine (proj1 (proj2 (proj2
            (@C10_time_24_00 utc_engine d _ eq_refl eq_refl)))).
  reflexivity.
Defined.

(** ** The values of the test suite *)

Example slugify_examples :
  map (slugify utc_engine)
      (map lit ["Tech Conference 2024"; "My Amazing Event";
                "UPPERCASE EVENT"; "Event With Many Spaces";
                "Event!@#$%^&*()With Special";
                "Event   With    Multiple     Spaces";
                "---Event---"; "Event_With_Underscores";
                "!@#$%^&*()"]%string)
  = map lit ["tech-conference-2024"; "my-amazing-event";
             "uppercase-event"; "event-with-many-spaces";
             "eventwith-special"; "event-with-multiple-spaces";
             "event"; "event-with-underscores"; ""]%string.
Proof. reflexivity. Qed.

(** [Événement en Français 日本語]: the code units outside [[\w\s-]] go. *)
Example slugify_unicode :
  slugify utc_engine
    ([201%N] ++ lit "v" ++ [233%N] ++ lit "nement en Fran" ++ [231%N]
     ++ lit "ais " ++ [26085%N; 26412%N; 35486%N])
  = lit "vnement-en-franais".
Proof. reflexivity. Qed.

Example timeRegex_examples :
  map (fun s => test timeRegex (lit s))
      ["14:30"; "9:30"; "23:59"; "00:00"; "25:00"; "24:00"; "12:60";
       "invalid"; "09:30:00"; ""]%string
  = [true; true; true; true; false; false; false; false; false; false].
Proof. reflexivity. Qed.

Example toISOString_examples :
  map toISOString [0; 1734258600000; 1709164800000; -1]%Z
  = map lit ["1970-01-01T00:00:00.000Z"; "2024-12-15T10:30:00.000Z";
             "2024-02-29T00:00:00.000Z"; "1969-12-31T23:59:59.999Z"]%string.
Proof. reflexivity. Qed.

Example Date_parse_examples :
  map (Date_parse utc_engine)
      (map lit ["2024-12-15"; "2024-02-29"; "2025-01-20";
                "2024-12-15T10:30:00.000Z"; "2024-13-01";
                "2000-01-01T25:00"; "2000-01-01T14:30";
                "invalid-date"]%string)
  = [Some 1734220800000; Some 1709164800000; Some 1737331200000;
     Some 1734258600000; None; None; Some 946737000000; None]%Z.
Proof. reflexivity. Qed.

Example pre_save_example :
  let r := pre_save utc_engine
             (new_event (lit "Tech Conference 2024")
                        (lit "2024-12-15T10:30:00.000Z") (lit "14:30")) in
  (slug (fields (fst r)), date (fields (fst r)), time (fields (fst r)),
   snd r)
  = (lit "tech-conference-2024", lit "2024-12-15", lit "14:30", None).
Proof. reflexivity. Qed.

End EventFacts.

Module BookingFacts.
Import JS JSFacts BookingModel.

(** ** The e-mail pattern *)

Lemma not_space_at_spec (c : N) :
  not_space_at c = true <-> is_space c = false /\ c <> c_at.
Proof.
  unfold not_space_at. rewrite negb_true_iff, orb_false_iff, N.eqb_neq.
  tauto.
Qed.

(** The strings of the pattern: three non-empty segments without white
    space or [@], separated by an [@] and a dot. *)
Lemma emailRegex_spec (s : jsstring) :
  test emailRegex s = true <->
  exists l d1 d2,
    s = l ++ c_at :: d1 ++ c_dot :: d2
    /\ l <> [] /\ d1 <> [] /\ d2 <> []
    /\ Forall (fun c => not_space_at c = true) l
    /\ Forall (fun c => not_space_at c = true) d1
    /\ Forall (fun c => not_space_at c = true) d2.
Proof.
  rewrite test_spec. unfold emailRegex. split.
  - intros H.
    apply Matches_Cat in H as (l & r1 & -> & Hl & H).
    apply Matches_Cat in H as (a & r2 & -> & Ha & H).
    apply Matches_Cat in H as (d1 & r3 & -> & Hd1 & H).
    apply Matches_Cat in H as (b & d2 & -> & Hb & Hd2).
    apply Matches_Chr in Ha as ->. apply Matches_Chr in Hb as ->.
    apply Matches_Plus_Cls in Hl as [? ?].
    apply Matches_Plus_Cls in Hd1 as [? ?].
    apply Matches_Plus_Cls in Hd2 as [? ?].
    exists l, d1, d2. simpl. auto 10.
  - intros (l & d1 & d2 & -> & Hl & Hd1 & Hd2 & Fl & Fd1 & Fd2).
    apply Matches_Cat. exists l, (c_at :: d1 ++ c_dot :: d2).
    split; [reflexivity|]. split; [apply Matches_Plus_Cls; auto|].
    apply Matches_Cat. exists [c_at], (d1 ++ c_dot :: d2).
    split; [reflexivity|]. split; [apply Matches_Chr; reflexivity|].
    apply Matches_Cat. exists d1, (c_dot :: d2).
    split; [reflexivity|]. split; [apply Matches_Plus_Cls; auto|].
    apply Matches_Cat. exists [c_dot], d2.
    split; [reflexivity|]. split; [apply Matches_Chr; reflexivity|].
    apply Matches_Plus_Cls; auto.
Qed.

Lemma count_at_segment (s : jsstring) :
  Forall (fun c => not_space_at c = true) s ->
  count_occ N.eq_dec s c_at = 0%nat.
Proof.
  intros H. apply count_occ_not_In. intros Hin.
  rewrite Forall_forall in H. apply H in Hin.
  apply not_space_at_spec in Hin as [_ Hne]. congruence.
Qed.

Lemma segment_no_space (s : jsstring) :
  Forall (fun c => not_space_at c = true) s ->
  Forall (fun c => is_space c = false) s.
Proof.
  apply Forall_impl. intros c H. apply not_space_at_spec in H. tauto.
Qed.

Lemma segment_intro (s : jsstring) :
  Forall (fun c => is_space c = false) s ->
  count_occ N.eq_dec s c_at = 0%nat ->
  Forall (fun c => not_space_at c = true) s.
Proof.
  intros Hs Hc. apply count_occ_not_In in Hc.
  rewrite Forall_forall in *. intros c Hin.
  apply not_space_at_spec. split; auto. congruence.
Qed.

(** What the validators of the path accept. *)
Lemma validate_email_ok (e : jsstring) :
  validate_email e = None <->
  e <> [] /\ (List.length e <= 254)%nat
  /\ Forall (fun c => is_space c = false) e
  /\ count_occ N.eq_dec e c_at = 1%nat
  /\ exists l dom,
       e = l ++ c_at :: dom /\ l <> []
       /\ exists d1 d2, dom = d1 ++ c_dot :: d2 /\ d1 <> [] /\ d2 <> [].
Proof.
  unfold validate_email. split.
  - destruct (List.length e =? 0)%nat eqn:E0; [discriminate|].
    destruct (test emailRegex e) eqn:Er; simpl; [|discriminate].
    destruct (254 <? List.length e)%nat eqn:El; [discriminate|].
    intros _.
    apply Nat.eqb_neq in E0. apply Nat.ltb_ge in El.
    apply emailRegex_spec in Er
      as (l & d1 & d2 & -> & Hl & Hd1 & Hd2 & Fl & Fd1 & Fd2).
    split; [destruct l; [congruence | discriminate]|].
    split; [assumption|]. split; [|split].
    + apply Forall_app. split; [apply segment_no_space; auto|].
      constructor; [reflexivity|].
      apply Forall_app. split; [apply segment_no_space; auto|].
      constructor; [reflexivity | apply segment_no_space; auto].
    + rewrite count_occ_app. simpl.
      rewrite count_occ_app. simpl.
      rewrite !count_at_segment by assumption. reflexivity.
    + exists l, (d1 ++ c_dot :: d2). repeat split; auto.
      exists d1, d2. auto.
  - intros (Hne & Hlen & Hsp & Hcnt & l & dom & -> & Hl & d1 & d2 & -> & Hd1 & Hd2).
    apply Forall_app in Hsp as [Sl Hsp]. inversion Hsp as [|? ? _ Hsp']; subst.
    apply Forall_app in Hsp' as [Sd1 Hsp']. inversion Hsp' as [|? ? _ Sd2]; subst.
    rewrite count_occ_app in Hcnt. simpl in Hcnt.
    rewrite count_occ_app in Hcnt. simpl in Hcnt.
    assert (Er : test emailRegex (l ++ c_at :: d1 ++ c_dot :: d2) = true).
    { apply emailRegex_spec. exists l, d1, d2.
      repeat split; auto; apply segment_intro; auto; lia. }
    rewrite Er. simpl.
    replace (List.length (l ++ c_at :: d1 ++ c_dot :: d2) =? 0)%nat with false.
    + replace (254 <? List.length (l ++ c_at :: d1 ++ c_dot :: d2))%nat
        with false; [reflexivity|].
      symmetry. apply Nat.ltb_ge. assumption.
    + symmetry. apply Nat.eqb_neq. rewrite length_app.
      destruct l; [congruence | simpl; lia].
Qed.

Lemma validate_email_messages (e : jsstring) (msg : string) :
  validate_email e = Some msg ->
  msg = "Email is required"%string
  \/ msg = "Please provide a valid email address"%string
  \/ msg = "Email cannot exceed 254 characters"%string.
Proof.
  unfold validate_email.
  destruct (List.length e =? 0)%nat; [intros [= <-]; auto|].
  destruct (negb (test emailRegex e)); [intros [= <-]; auto|].
  destruct (254 <? List.length e)%nat; [intros [= <-]; auto | discriminate].
Qed.

(** C4, as the code has it: after lower-casing and trimming, an e-mail
    passes validation exactly when it is non-empty, has at most 254 code
    units, no white space and exactly one [@], a non-empty part before the
    [@], and after it a part that contains a dot with at least one code
    unit on either side; an e-mail that fails is refused with one of the
    messages of the path, and the save performs no effect: nothing is
    written. *)
Theorem C4_email_validation (eng : Engine) (raw : jsstring) :
  let e := set_email eng raw in
  (validate_email e = None <->
   e <> [] /\ (List.length e <= 254)%nat
   /\ Forall (fun c => is_space c = false) e
   /\ count_occ N.eq_dec e c_at = 1%nat
   /\ exists l dom,
        e = l ++ c_at :: dom /\ l <> []
        /\ exists d1 d2, dom = d1 ++ c_dot :: d2 /\ d1 <> [] /\ d2 <> [])
  /\ (forall msg id st,
        validate_email e = Some msg ->
        (msg = "Email is required"%string
         \/ msg = "Please provide a valid email address"%string
         \/ msg = "Email cannot exceed 254 characters"%string)
        /\ save (new_booking eng id raw) st = ([], inr (Some msg))).
Proof.
  intros e. split.
  - apply validate_email_ok.
  - intros msg id st H. split; [eapply validate_email_messages; eauto|].
    unfold save, new_booking. simpl. fold e. rewrite H. reflexivity.
Qed.

Lemma C4_email_validation_witness :
  validate_email (set_email utc_engine (lit "  TEST@Example.COM ")) = None
  /\ save (new_booking utc_engine "507f1f77bcf86cd799439011"%string
                       (lit "user @example.com"))
          {| Event_exists := fun _ => Found |}
     = ([], inr (Some "Please provide a valid email address"%string)).
Proof.
  split.
  - apply (C4_email_validation utc_engine (lit "  TEST@Example.COM ")).
    split; [discriminate|]. split; [simpl; lia|].
    split; [repeat constructor|]. split; [reflexivity|].
    exists (lit "test"), (lit "example.com"). split; [reflexivity|].
    split; [discriminate|].
    exists (lit "example"), (lit "com").
    split; [reflexivity|]. split; discriminate.
  - apply (C4_email_validation utc_engine (lit "user @example.com")).
    reflexivity.
Defined.

(** C4 without the dot fails: ["user@domain"] is non-empty, short enough,
    free of white space, has one [@] with a non-empty part on either side,
    and is refused by the pattern for want of a dot after the [@]. *)
Lemma C4_counterexample :
  let e := set_email utc_engine (lit "user@domain") in
  (e <> [] /\ (List.length e <= 254)%nat
   /\ Forall (fun c => is_space c = false) e
   /\ count_occ N.eq_dec e c_at = 1%nat
   /\ exists l dom, e = l ++ c_at :: dom /\ l <> [] /\ dom <> [])
  /\ validate_email e = Some "Please provide a valid email address"%string.
Proof.
  intros e. split; [|reflexivity].
  split; [discriminate|]. split; [simpl; lia|].
  split; [repeat constructor|]. split; [reflexivity|].
  exists (lit "user"), (lit "domain").
  split; [reflexivity|]. split; discriminate.
Qed.

(** ** The reference check *)

Lemma pre_save_run (d : Doc) (st : Store) :
  pre_save d st =
  if isNew d || isModified d "eventId" then
    ([ExistsEvent (eventId (fields d))],
     inr match Event_exists st (eventId (fields d)) with
         | Found => None
         | Absent =>
             Some ("Event with ID " ++ eventId (fields d)
                   ++ " does not exist")%string
         | Rejects (ThrownError message) =>
             Some ("Failed to validate event reference: " ++ message)%string
         | Rejects ThrownValue =>
             Some "Failed to validate event reference"%string
         end)
  else ([], inr None).
Proof.
  unfold pre_save.
  destruct (isNew d || isModified d "eventId"); [|reflexivity].
  unfold try_catch, bind, exists_event, ret.
  destruct (Event_exists st (eventId (fields d))) as [| |[m|]]; reflexivity.
Qed.

(** The save fails with the error of the hook, and writes only when the
    hook passes none. *)
Lemma save_after_hook (d : Doc) (st : Store) :
  validate_email (email (fields d)) = None ->
  save d st =
  match pre_save d st with
  | (log, inr None) => (log ++ [InsertBooking (fields d)], inr None)
  | (log, r) => (log, r)
  end.
Proof.
  intros H. unfold save. rewrite H. unfold bind.
  destruct (pre_save d st) as [log [t | [msg|]]]; simpl;
    rewrite ?app_nil_r; reflexivity.
Qed.



(** ** The values of the test suite *)

Example valid_emails :
  map (fun s => validate_email (set_email utc_engine (lit s)))
      ["test@example.com"; "user.name@example.com";
       "user+tag@example.co.uk"; "user_name@example-domain.com";
       "123@example.com"; "TEST@EXAMPLE.COM"; "  test@example.com  ";
       "user@mail.example.com"; "first.last@example.com"]%string
  = repeat None 9.
Proof. reflexivity. Qed.

Example invalid_emails :
  map (fun s => validate_email (set_email utc_engine (lit s)))
      ["notanemail"; "@example.com"; "user@"; "user @example.com";
       "user@.com"; "user@domain"; ""; "   "]%string
  = repeat (Some "Please provide a valid email address"%string) 6
    ++ repeat (Some "Email is required"%string) 2.
Proof. reflexivity. Qed.

Example email_length_bound :
  validate_email (repeat 97%N 243 ++ lit "@domain.com") = None
  /\ validate_email (repeat 97%N 244 ++ lit "@domain.com")
     = Some "Email cannot exceed 254 characters"%string.
Proof. split; vm_compute; reflexivity. Qed.

Example save_examples :
  let id := "507f1f77bcf86cd799439011"%string in
  let d := new_booking utc_engine id (lit "test@example.com") in
  save d {| Event_exists := fun _ => Found |}
  = ([ExistsEvent id; InsertBooking (fields d)], inr None)
  /\ save d {| Event_exists :=
                 fun _ => Rejects (ThrownError "Database error") |}
     = ([ExistsEvent id],
        inr (Some
          "Failed to validate event reference: Database error"%string))
  /\ save d {| Event_exists := fun _ => Rejects ThrownValue |}
     = ([ExistsEvent id],
        inr (Some "Failed to validate event reference"%string)).
Proof. repeat split. Qed.

End BookingFacts.

Module MongooseFacts.
Import JS MongooseLib.

(** ** Module initialisation *)

Lemma falsy_spec (v : option jsstring) :
  falsy v = true <-> v = None \/ v = Some [].
Proof.
  destruct v as [[|c u]|]; simpl; split; auto; try discriminate.
  intros [H | H]; discriminate.
Qed.

(** C8, as the code has it: when MONGODB_URL is absent or empty, loading
    the module throws ["Please define the MONGODB_URL environment variable
    inside .env"] before anything else is done; when it is a non-empty
    string the module loads with that string as its URL and with the
    global cache, or a fresh empty one; in neither case is a connection
    attempted. *)
Theorem C8_module_init (MONGODB_URL : option jsstring)
    (g : option MongooseConnection) :
  (MONGODB_URL = None \/ MONGODB_URL = Some [] ->
   module_init MONGODB_URL g
   = ([],
      InitThrows
        "Please define the MONGODB_URL environment variable inside .env",
      g))
  /\ (forall u, MONGODB_URL = Some u -> u <> [] ->
      exists effs cached0,
        module_init MONGODB_URL g = (effs, InitDone u cached0, Some cached0)
        /\ (g = None -> cached0 = {| conn := None; promise := None |})
        /\ (forall c, g = Some c -> cached0 = c))
  /\ (forall url, ~ In (Connect url) (fst (fst (module_init MONGODB_URL g)))).
Proof.
  unfold module_init. split; [|split].
  - intros H. apply falsy_spec in H. rewrite H. reflexivity.
  - intros u -> Hu. destruct u as [|c u]; [congruence|]. simpl.
    eexists _, _. split; [reflexivity|]. split.
    + intros ->. reflexivity.
    + intros c0 ->. reflexivity.
  - intros url. destruct (falsy MONGODB_URL); simpl; [tauto|].
    intros [H | [H | [H | [H | []]]]]; discriminate.
Qed.

Lemma C8_module_init_witness :
  module_init None None
  = ([],
     InitThrows
       "Please define the MONGODB_URL environment variable inside .env",
     None)
  /\ exists effs cached0,
       module_init (Some (lit "mongodb://localhost:27017/test-db")) None
       = (effs, InitDone (lit "mongodb://localhost:27017/test-db") cached0,
          Some cached0).
Proof.
  split.
  - apply (C8_module_init None None). left. reflexivity.
  - destruct (C8_module_init
                (Some (lit "mongodb://localhost:27017/test-db")) None)
      as [_ [H _]].
    destruct (H _ eq_refl ltac:(discriminate)) as (effs & c & E & _).
    exists effs, c. exact E.
Defined.

(** A MONGODB_URL that is present but empty makes the module throw. *)
Lemma C8_counterexample :
  module_init (Some []) None
  = ([],
     InitThrows
       "Please define the MONGODB_URL environment variable inside .env",
     None).
Proof. reflexivity. Qed.

(** ** The calls, one at a time *)

(** With a connection in the cache, a call returns it and starts
    nothing. *)
Lemma call_with_conn (c : nat) (s : State) (m : Mongoose) :
  conn (cached s) = Some m ->
  connectToDatabase c s = {| cached := cached s; promises := promises s;
                awaiting := awaiting s;
                completed := completed s ++ [(c, Fulfilled m)] |}.
Proof. unfold connectToDatabase. intros ->. reflexivity. Qed.

(** Without a connection but with a promise in the cache, a call awaits
    that promise and starts nothing. *)
Lemma call_with_promise (c : nat) (s : State) (p : PromiseId) :
  conn (cached s) = None -> promise (cached s) = Some p ->
  connectToDatabase c s = {| cached := cached s; promises := promises s;
                awaiting := awaiting s ++ [(c, p)];
                completed := completed s |}.
Proof. unfold connectToDatabase. intros -> ->. reflexivity. Qed.

(** With neither, a call starts an attempt, caches its promise and awaits
    it. *)
Lemma call_starts_attempt (c : nat) (s : State) :
  conn (cached s) = None -> promise (cached s) = None ->
  let p := List.length (promises s) in
  promise (cached (connectToDatabase c s)) = Some p
  /\ promises (connectToDatabase c s) = promises s ++ [Pending]
  /\ awaiting (connectToDatabase c s) = awaiting s ++ [(c, p)].
Proof. unfold connectToDatabase. intros -> ->. simpl. auto. Qed.

(** A failed attempt clears the cached promise, and a caller that resumes
    with the failure clears both fields. *)
Lemma settle_rejected_resets (p : PromiseId) (e : string) (s s' : State) :
  settle p (Rejected e) s = Some s' ->
  promise (cached s') = None /\ conn (cached s') = conn (cached s).
Proof.
  unfold settle. destruct (nth_error (promises s) p) as [[|r]|];
    try discriminate.
  intros [= <-]. simpl. auto.
Qed.

Lemma resume_outcome (c : nat) (s s' : State) :
  connectToDatabase_resume c s = Some s' ->
  exists p rest r,
    take_waiter c (awaiting s) = Some (p, rest)
    /\ nth_error (promises s) p = Some (Settled r)
    /\ completed s' = completed s ++ [(c, r)]
    /\ promises s' = promises s
    /\ cached s' =
       match r with
       | Fulfilled m => {| conn := Some m; promise := promise (cached s) |}
       | Rejected _ => {| conn := None; promise := None |}
       end.
Proof.
  unfold connectToDatabase_resume.
  destruct (take_waiter c (awaiting s)) as [[p rest]|]; [|discriminate].
  destruct (nth_error (promises s) p) as [[|[m|e]]|] eqn:E;
    try discriminate; intros [= <-]; simpl;
    eexists _, _, _; repeat split; eauto.
Qed.

(** ** Settled promises stay as they are *)

Lemma nth_error_set_nth_ne {A : Type} (l : list A) (i j : nat) (x : A) :
  i <> j -> nth_error (set_nth i x l) j = nth_error l j.
Proof.
  revert i j. induction l as [|y l IH]; intros [|i] [|j] H; simpl; auto.
  congruence.
Qed.

Lemma nth_error_set_nth_eq {A : Type} (l : list A) (i : nat) (x y : A) :
  nth_error l i = Some y -> nth_error (set_nth i x l) i = Some x.
Proof.
  revert i. induction l as [|z l IH]; intros [|i] H; simpl in *;
    try discriminate; auto.
Qed.

Lemma settled_stable (a : action) (s s' : State) (p : PromiseId)
    (r : settled) :
  do_action a s = Some s' ->
  nth_error (promises s) p = Some (Settled r) ->
  nth_error (promises s') p = Some (Settled r).
Proof.
  destruct a as [c | q r' | c]; simpl.
  - intros [= <-] H. unfold connectToDatabase.
    destruct (conn (cached s)); simpl; auto.
    destruct (promise (cached s)); simpl; auto.
    rewrite nth_error_app1; auto.
    apply nth_error_Some. congruence.
  - unfold settle. destruct (nth_error (promises s) q) as [[|x]|] eqn:E;
      try discriminate.
    intros [= <-] H. simpl.
    rewrite nth_error_set_nth_ne; auto. congruence.
  - intros H. apply resume_outcome in H
      as (q & rest & x & _ & _ & _ & E & _).
    rewrite E. auto.
Qed.

(** All callers that awaited one promise get one outcome. *)
Lemma settled_stable_run (tr : list action) :
  forall (s s' : State) (p : PromiseId) (r : settled),
    run tr s = Some s' ->
    nth_error (promises s) p = Some (Settled r) ->
    nth_error (promises s') p = Some (Settled r).
Proof.
  induction tr as [|a tr IH]; simpl; intros s s' p r.
  - intros [= <-]. auto.
  - destruct (do_action a s) as [s1|] eqn:E; [|discriminate].
    intros H Hp. eapply IH; eauto. eapply settled_stable; eauto.
Qed.

(** ** One attempt at a time, until a caller resumes late *)

Lemma single_attempt_in_flight (s : State) :
  single_attempt s -> (in_flight s <= 1)%nat.
Proof.
  unfold single_attempt, in_flight.
  generalize (promise (cached s)) as cp. generalize (promises s) as l.
  induction l as [|x l IH]; intros cp H; simpl; [lia|].
  destruct x as [|r]; simpl.
  - assert (E : filter is_pending l = []).
    { destruct (filter is_pending l) as [|y t] eqn:F; [reflexivity|].
      assert (Hin : In y (filter is_pending l)) by (rewrite F; left; auto).
      apply filter_In in Hin as [Hin Hy].
      destruct y; [|discriminate].
      apply In_nth_error in Hin as [j Hj].
      pose proof (H 0%nat eq_refl) as H0.
      pose proof (H (S j) Hj) as H1. congruence. }
    rewrite E. simpl. lia.
  - apply (IH (match cp with Some (S q) => Some q | _ => None end)).
    intros q Hq. rewrite (H (S q) Hq). reflexivity.
Qed.

Lemma single_attempt_step (a : action) (s s' : State) :
  single_attempt s ->
  ~ late_resume a s ->
  do_action a s = Some s' ->
  single_attempt s'.
Proof.
  unfold single_attempt. intros I Hlate.
  destruct a as [c | p r | c]; simpl.
  - intros [= <-] q. unfold connectToDatabase.
    destruct (conn (cached s)) eqn:Ec; [exact (I q)|].
    destruct (promise (cached s)) as [p|] eqn:Ep.
    + simpl. rewrite Ep. exact (I q).
    + simpl. intros Hq.
      destruct (Nat.lt_ge_cases q (List.length (promises s))) as [Hlt | Hge].
      * rewrite nth_error_app1 in Hq by assumption.
        apply I in Hq. discriminate.
      * rewrite nth_error_app2 in Hq by assumption.
        destruct (q - List.length (promises s))%nat as [|k] eqn:Ek.
        -- f_equal. lia.
        -- destruct k; discriminate.
  - unfold settle.
    destruct (nth_error (promises s) p) as [[|x]|] eqn:E; try discriminate.
    intros [= <-] q Hq. simpl in *.
    destruct (Nat.eq_dec p q) as [-> | Hne].
    + rewrite (@nth_error_set_nth_eq _ _ _ (Settled r) _ E) in Hq.
      discriminate.
    + rewrite nth_error_set_nth_ne in Hq by assumption.
      pose proof (I _ Hq) as Hc. pose proof (I _ E) as Hc'.
      congruence.
  - intros H. destruct (resume_outcome _ _ H)
      as (p & rest & r & Ht & Hp & _ & Eps & Ec).
    intros q Hq. rewrite Eps in Hq. rewrite Ec.
    destruct r as [m | e]; simpl; auto.
    exfalso. apply Hlate. simpl.
    exists p, rest, e. repeat split; auto.
    rewrite (I _ Hq). discriminate.
Qed.

(** Along a run in which no caller resumes late, at most one attempt is
    in flight. *)
Lemma single_attempt_run (tr : list action) :
  forall s s',
    single_attempt s ->
    run tr s = Some s' ->
    (forall pre a post s1,
        tr = pre ++ a :: post -> run pre s = Some s1 -> ~ late_resume a s1) ->
    single_attempt s'.
Proof.
  induction tr as [|a tr IH]; simpl; intros s s' I H Hno.
  - injection H as <-. exact I.
  - destruct (do_action a s) as [s1|] eqn:E; [|discriminate].
    apply (IH s1 s'); auto.
    + eapply single_attempt_step; eauto.
      apply (Hno [] a tr s); reflexivity.
    + intros pre b post s2 -> Hr.
      apply (Hno (a :: pre) b post s2); [reflexivity|].
      simpl. rewrite E. exact Hr.
Qed.

(** C6, on the code: a call made after a failed attempt has cleared the
    cached promise starts a second attempt; when the caller that awaited
    the failed attempt then resumes, it clears the cached promise of the
    second attempt, and the next call starts a third one while the second
    is still pending: two attempts are in flight. *)
Theorem C6_two_attempts_in_flight :
  (exists s,
      run [Call 0; Settle 0 (Rejected "connection refused"); Call 1;
           Resume 0; Call 2] initial = Some s
      /\ promises s
         = [Settled (Rejected "connection refused"); Pending; Pending]
      /\ in_flight s = 2%nat)
  /\ ~ (forall s, reachable s -> (in_flight s <= 1)%nat).
Proof.
  split.
  - eexists. repeat split.
  - intros H.
    assert (R : reachable
                  {| cached := {| conn := None; promise := Some 2%nat |};
                     promises := [Settled (Rejected "connection refused");
                                  Pending; Pending];
                     awaiting := [(1, 1); (2, 2)]%nat;
                     completed := [(0%nat, Rejected "connection refused")] |}).
    { exists [Call 0; Settle 0 (Rejected "connection refused"); Call 1;
              Resume 0; Call 2].
      reflexivity. }
    apply H in R. unfold in_flight in R. simpl in R. lia.
Qed.

(** The same late resumption also drops a live connection from the
    cache: the next call connects again. *)
Example late_resume_drops_connection :
  run [Call 0; Settle 0 (Rejected "timeout"); Call 1;
       Settle 1 (Fulfilled 7); Resume 1; Resume 0; Call 2] initial
  = Some {| cached := {| conn := None; promise := Some 2 |};
            promises := [Settled (Rejected "timeout");
                         Settled (Fulfilled 7); Pending];
            awaiting := [(2, 2)];
            completed := [(1, Fulfilled 7); (0, Rejected "timeout")] |}.
Proof. reflexivity. Qed.

(** Callers that arrive while an attempt is pending share it. *)
Example shared_attempt :
  run [Call 0; Call 1; Settle 0 (Fulfilled 7); Resume 1; Call 2; Resume 0]
      initial
  = Some {| cached := {| conn := Some 7; promise := Some 0 |};
            promises := [Settled (Fulfilled 7)];
            awaiting := [];
            completed := [(1, Fulfilled 7); (2, Fulfilled 7);
                          (0, Fulfilled 7)] |}.
Proof. reflexivity. Qed.

(** After a failure that every waiting caller has seen, the next call
    starts the one fresh attempt. *)
Example retry_after_failure :
  run [Call 0; Call 1; Settle 0 (Rejected "timeout"); Resume 0; Resume 1;
       Call 2] initial
  = Some {| cached := {| conn := None; promise := Some 1 |};
            promises := [Settled (Rejected "timeout"); Pending];
            awaiting := [(2, 1)];
            completed := [(0, Rejected "timeout");
                          (1, Rejected "timeout")] |}.
Proof. reflexivity. Qed.

End MongooseFacts.

(* --------------------------------------------------------------------- *)
(** ** More on the slug derivation                                        *)
(* --------------------------------------------------------------------- *)

Module SlugFacts.
Import JS JSFacts EventModel.

Ltac unit_arith :=
  unfold is_alnum, keeps, is_sep, is_word, is_space, is_hyphen, is_upper,
    is_lower, is_digit, between, c_hyphen, c_underscore in *;
  repeat rewrite ?orb_true_iff, ?orb_false_iff, ?andb_true_iff,
    ?andb_false_iff, ?N.leb_le, ?N.leb_gt, ?N.eqb_eq, ?N.eqb_neq in *;
  lia.

Lemma space_not_alnum (c : N) : is_space c = true -> is_alnum c = false.
Proof. intros H. unit_arith. Qed.

Lemma hyphen_not_alnum (c : N) : is_hyphen c = true -> is_alnum c = false.
Proof. intros H. unit_arith. Qed.

Lemma sep_not_alnum (c : N) : is_sep c = true -> is_alnum c = false.
Proof.
  unfold is_sep. intros H.
  apply orb_true_iff in H as [H | H]; [|apply hyphen_not_alnum; exact H].
  apply orb_true_iff in H as [H | H]; [apply space_not_alnum; exact H|].
  unit_arith.
Qed.

Lemma alnum_keeps (c : N) : is_alnum c = true -> keeps c = true.
Proof.
  unfold is_alnum, keeps, is_word.
  destruct (is_upper c), (is_lower c), (is_digit c); simpl; auto;
    discriminate.
Qed.

(** A unit that the first replacement keeps and that is neither a letter
    nor a digit is a separator. *)
Lemma kept_not_alnum_sep (c : N) :
  keeps c = true -> is_alnum c = false -> is_sep c = true.
Proof.
  unfold is_alnum, keeps, is_word, is_sep.
  destruct (is_upper c), (is_lower c), (is_digit c), (is_space c),
    (is_hyphen c), (c =? c_underscore)%N; simpl; auto.
Qed.

(** *** Letters and digits pass every stage *)

Lemma alnum_drop_while (p : N -> bool) (s : jsstring) :
  (forall c, p c = true -> is_alnum c = false) ->
  filter is_alnum (drop_while p s) = filter is_alnum s.
Proof.
  intros Hp. induction s as [|c s IH]; simpl; auto.
  destruct (p c) eqn:E; [|reflexivity].
  rewrite (Hp c E). exact IH.
Qed.

Lemma alnum_drop_while_end (p : N -> bool) (s : jsstring) :
  (forall c, p c = true -> is_alnum c = false) ->
  filter is_alnum (drop_while_end p s) = filter is_alnum s.
Proof.
  intros Hp. unfold drop_while_end.
  rewrite filter_rev, alnum_drop_while by assumption.
  rewrite filter_rev. apply rev_involutive.
Qed.

Lemma alnum_remove_special (s : jsstring) :
  filter is_alnum (remove_special s) = filter is_alnum s.
Proof.
  unfold remove_special. induction s as [|c s IH]; simpl; auto.
  destruct (keeps c) eqn:Ek; simpl.
  - rewrite IH. reflexivity.
  - destruct (is_alnum c) eqn:Ea; [|exact IH].
    apply alnum_keeps in Ea. congruence.
Qed.

Lemma alnum_replace_sep_runs (s : jsstring) :
  forall b, filter is_alnum (replace_sep_runs b s) = filter is_alnum s.
Proof.
  induction s as [|c s IH]; intros b; simpl; auto.
  destruct (is_sep c) eqn:Es.
  - rewrite (sep_not_alnum c Es).
    destruct b; simpl; apply IH.
  - simpl. rewrite IH. reflexivity.
Qed.

Lemma slugify_alnum (eng : Engine) (t : jsstring) :
  filter is_alnum (slugify eng t) = filter is_alnum (toLowerCase eng t).
Proof.
  unfold slugify, strip_edge_hyphens, trim.
  rewrite alnum_drop_while_end by apply hyphen_not_alnum.
  rewrite alnum_drop_while by apply hyphen_not_alnum.
  rewrite alnum_replace_sep_runs, alnum_remove_special.
  rewrite alnum_drop_while_end by apply space_not_alnum.
  apply alnum_drop_while, space_not_alnum.
Qed.

(** X1: the letters and digits of the slug are those of the lower-cased
    title, in the same order: the derivation deletes, merges or replaces
    nothing but other code units. *)
Theorem slug_keeps_letters_and_digits (eng : Engine) (t : jsstring) :
  filter is_alnum (slugify eng t) = filter is_alnum (toLowerCase eng t)
  /\ (forall c, is_alnum c = true ->
                count_occ N.eq_dec (slugify eng t) c
                = count_occ N.eq_dec (toLowerCase eng t) c).
Proof.
  split; [apply slugify_alnum|].
  intros c Hc.
  assert (F : forall s, count_occ N.eq_dec (filter is_alnum s) c
                        = count_occ N.eq_dec s c).
  { induction s as [|x s IH]; simpl; [reflexivity|].
    destruct (is_alnum x) eqn:Ex; simpl.
    - destruct (N.eq_dec x c); rewrite IH; reflexivity.
    - destruct (N.eq_dec x c); [congruence | exact IH]. }
  rewrite <- (F (slugify eng t)), <- (F (toLowerCase eng t)).
  rewrite slugify_alnum. reflexivity.
Qed.

(** *** The empty slug *)

Lemma filter_nil_Forall (f : N -> bool) (s : jsstring) :
  filter f s = [] <-> Forall (fun c => f c = false) s.
Proof.
  induction s as [|c s IH]; simpl.
  - split; auto.
  - destruct (f c) eqn:E; split; intros H.
    + discriminate.
    + inversion H; congruence.
    + constructor; [assumption | apply IH; assumption].
    + inversion H; subst. apply IH. assumption.
Qed.

Lemma replace_sep_runs_in_run (s : jsstring) :
  Forall (fun c => is_sep c = true) s -> replace_sep_runs true s = [].
Proof.
  induction 1 as [|c s Hc _ IH]; simpl; auto.
  rewrite Hc. exact IH.
Qed.

Lemma replace_sep_runs_all_sep (s : jsstring) :
  Forall (fun c => is_sep c = true) s ->
  replace_sep_runs false s = [] \/ replace_sep_runs false s = [c_hyphen].
Proof.
  intros H. destruct H as [|c s Hc Hs]; simpl; auto.
  rewrite Hc, (replace_sep_runs_in_run Hs). auto.
Qed.

(** X2: the slug is empty exactly when the lower-cased title has no ASCII
    letter and no digit; such titles all share the empty
    slug. *)
Theorem slug_empty_iff (eng : Engine) (t : jsstring) :
  slugify eng t = []
  <-> Forall (fun c => is_alnum c = false) (toLowerCase eng t).
Proof.
  split.
  - intros E. apply filter_nil_Forall.
    rewrite <- slugify_alnum, E. reflexivity.
  - intros H. unfold slugify.
    set (u := trim (toLowerCase eng t)).
    assert (Hu : Forall (fun c => is_alnum c = false) u).
    { apply Forall_drop_while_end, Forall_drop_while, H. }
    assert (Hv : Forall (fun c => is_sep c = true) (remove_special u)).
    { apply Forall_forall. intros c Hc.
      apply filter_In in Hc as [Hin Hk].
      rewrite Forall_forall in Hu. apply kept_not_alnum_sep; auto. }
    destruct (replace_sep_runs_all_sep Hv) as [E | E]; rewrite E;
      reflexivity.
Qed.

End SlugFacts.

(* --------------------------------------------------------------------- *)
(** ** More on the time pattern and the time step                         *)
(* --------------------------------------------------------------------- *)

Module TimeFacts.
Import JS JSFacts EventModel EventFacts.

(** *** Enumeration *)

Lemma all_below_iter (n : N) (p : Z -> bool) :
  let r := N.iter n (fun st => (fst st + 1, snd st && p (fst st)))%Z
                  (0%Z, true) in
  fst r = Z.of_N n
  /\ (snd r = true -> forall i, (0 <= i < Z.of_N n)%Z -> p i = true).
Proof.
  induction n as [|n IH] using N.peano_ind.
  - simpl. split; [reflexivity | intros _ i Hi; lia].
  - rewrite N.iter_succ. cbv zeta in *.
    destruct (N.iter n _ _) as [k ok]. simpl in *.
    destruct IH as [Hk Hok]. subst k. split; [lia|].
    intros H i Hi. apply andb_true_iff in H as [H1 H2].
    destruct (Z.eq_dec i (Z.of_N n)) as [-> | Hne]; [assumption|].
    apply Hok; [assumption | lia].
Qed.

Lemma all_below_spec (n : N) (p : Z -> bool) :
  all_below n p = true -> forall i, (0 <= i < Z.of_N n)%Z -> p i = true.
Proof. intros H. apply (proj2 (all_below_iter n p)). exact H. Qed.

(** *** Digits *)

Lemma digit_unit (v : Z) :
  (0 <= v <= 9)%Z -> is_digit (Z.to_N (48 + v)) = true.
Proof.
  intros H. unfold is_digit, between.
  apply andb_true_iff. split; apply N.leb_le; lia.
Qed.

Lemma dec_digits_1 (v : Z) :
  (0 <= v <= 9)%Z -> dec_digits 1 v = [Z.to_N (48 + v)].
Proof.
  intros H. cbn [dec_digits app]. rewrite Z.mod_small by lia. reflexivity.
Qed.

Lemma dec_digits_2 (a b : Z) :
  (0 <= a <= 9)%Z -> (0 <= b <= 9)%Z ->
  dec_digits 2 (10 * a + b) = [Z.to_N (48 + a); Z.to_N (48 + b)].
Proof.
  intros Ha Hb. cbn [dec_digits app].
  replace ((10 * a + b) / 10)%Z with a
    by (apply Z.div_unique with b; lia).
  replace ((10 * a + b) mod 10)%Z with b
    by (apply Z.mod_unique with a; lia).
  rewrite (Z.mod_small a) by lia. reflexivity.
Qed.

(** *** The language of the pattern *)

Lemma Matches_Cls (p : N -> bool) (s : jsstring) :
  Matches (Cls p) s <-> exists c, s = [c] /\ p c = true.
Proof.
  split.
  - intros H. inversion H; subst. eauto.
  - intros (c & -> & H). constructor. exact H.
Qed.

Lemma Matches_Alt (r1 r2 : regex) (s : jsstring) :
  Matches (Alt r1 r2) s <-> Matches r1 s \/ Matches r2 s.
Proof.
  split.
  - intros H. inversion H; subst; auto.
  - intros [H | H]; [apply MAltL | apply MAltR]; exact H.
Qed.

Lemma Matches_Eps (s : jsstring) : Matches Eps s <-> s = [].
Proof.
  split.
  - intros H. inversion H. reflexivity.
  - intros ->. constructor.
Qed.

Lemma between_unit (lo hi c : N) :
  between lo hi c = true <-> (lo <= c <= hi)%N.
Proof.
  unfold between. rewrite andb_true_iff, !N.leb_le. tauto.
Qed.

(** The strings of the pattern, unit by unit. *)
Lemma timeRegex_units (s : jsstring) :
  test timeRegex s = true ->
  exists hs c d,
    s = hs ++ [c_colon; c; d]
    /\ (48 <= c <= 53)%N /\ (48 <= d <= 57)%N
    /\ ((exists b, hs = [b] /\ (48 <= b <= 57)%N)
        \/ (exists a b, hs = [a; b] /\ (48 <= a <= 49)%N /\ (48 <= b <= 57)%N)
        \/ (exists b, hs = [50%N; b] /\ (48 <= b <= 51)%N)).
Proof.
  rewrite test_spec. unfold timeRegex. intros H.
  apply Matches_Cat in H as (hs & ms & -> & Hh & Hm).
  apply Matches_Cat in Hm as (x & ms' & -> & Hx & Hm).
  apply Matches_Chr in Hx as ->.
  apply Matches_Cat in Hm as (y & z & -> & Hy & Hz).
  apply Matches_Cls in Hy as (c & -> & Hc).
  apply Matches_Cls in Hz as (d & -> & Hd).
  apply between_unit in Hc. apply between_unit in Hd.
  exists hs, c, d. split; [reflexivity|]. split; [exact Hc|].
  split; [exact Hd|].
  apply Matches_Alt in Hh as [Hh | Hh].
  - apply Matches_Cat in Hh as (o & w & -> & Ho & Hw).
    apply Matches_Cls in Hw as (b & -> & Hb). apply between_unit in Hb.
    apply Matches_Alt in Ho as [Ho | Ho].
    + apply Matches_Cls in Ho as (a & -> & Ha). apply between_unit in Ha.
      right. left. exists a, b. auto.
    + apply Matches_Eps in Ho as ->. left. exists b. auto.
  - apply Matches_Cat in Hh as (o & w & -> & Ho & Hw).
    apply Matches_Chr in Ho as ->.
    apply Matches_Cls in Hw as (b & -> & Hb). apply between_unit in Hb.
    right. right. exists b. auto.
Qed.

Lemma timeRegex_accepts_hhmm :
  all_below 24 (fun h => all_below 60 (fun m => test timeRegex (hhmm h m)))
  = true.
Proof. vm_compute. reflexivity. Qed.

Lemma timeRegex_accepts_hmm :
  all_below 10 (fun h => all_below 60 (fun m => test timeRegex (hmm h m)))
  = true.
Proof. vm_compute. reflexivity. Qed.

Lemma timeRegex_hhmm (h m : Z) :
  (0 <= h <= 23)%Z -> (0 <= m <= 59)%Z -> test timeRegex (hhmm h m) = true.
Proof.
  intros Hh Hm.
  pose proof (@all_below_spec _ _ timeRegex_accepts_hhmm h ltac:(lia)) as H.
  exact (@all_below_spec _ _ H m ltac:(lia)).
Qed.

Lemma timeRegex_hmm (h m : Z) :
  (0 <= h <= 9)%Z -> (0 <= m <= 59)%Z -> test timeRegex (hmm h m) = true.
Proof.
  intros Hh Hm.
  pose proof (@all_below_spec _ _ timeRegex_accepts_hmm h ltac:(lia)) as H.
  exact (@all_below_spec _ _ H m ltac:(lia)).
Qed.

Lemma two_units (a b : N) :
  (48 <= a <= 57)%N -> (48 <= b <= 57)%N ->
  [a; b] = dec_digits 2 (10 * (Z.of_N a - 48) + (Z.of_N b - 48)).
Proof.
  intros Ha Hb. rewrite dec_digits_2 by lia.
  f_equal; [|f_equal]; lia.
Qed.

(** X3: the time pattern accepts exactly the texts [HH:MM] with an hour
    from 00 to 23 and a minute from 00 to 59, and the same with a
    one-digit hour [H:MM] from 0 to 9. *)
Theorem timeRegex_language (s : jsstring) :
  test timeRegex s = true
  <-> exists h m,
        (0 <= h <= 23)%Z /\ (0 <= m <= 59)%Z
        /\ (s = hhmm h m \/ ((h <= 9)%Z /\ s = hmm h m)).
Proof.
  split.
  - intros H. apply timeRegex_units in H
      as (hs & c & d & -> & Hc & Hd & Hh).
    assert (Hm : [c; d] = dec_digits 2 (10 * (Z.of_N c - 48) + (Z.of_N d - 48)))
      by (apply two_units; lia).
    destruct Hh as [(b & -> & Hb) | [(a & b & -> & Ha & Hb) | (b & -> & Hb)]].
    + exists (Z.of_N b - 48)%Z, (10 * (Z.of_N c - 48) + (Z.of_N d - 48))%Z.
      split; [lia|]. split; [lia|]. right. split; [lia|].
      unfold hmm. rewrite <- Hm, dec_digits_1 by lia.
      cbn [app]. f_equal. lia.
    + exists (10 * (Z.of_N a - 48) + (Z.of_N b - 48))%Z,
             (10 * (Z.of_N c - 48) + (Z.of_N d - 48))%Z.
      split; [lia|]. split; [lia|]. left.
      unfold hhmm. rewrite <- Hm, <- two_units by lia. reflexivity.
    + exists (10 * 2 + (Z.of_N b - 48))%Z,
             (10 * (Z.of_N c - 48) + (Z.of_N d - 48))%Z.
      split; [lia|]. split; [lia|]. left.
      unfold hhmm. rewrite <- Hm, dec_digits_2 by lia.
      cbn [app]. f_equal. f_equal. lia.
  - intros (h & m & Hh & Hm & [-> | [Hh' ->]]).
    + apply timeRegex_hhmm; assumption.
    + apply timeRegex_hmm; [lia | assumption].
Qed.

(** *** What the time step stores *)

Lemma firstn_app_exact {A : Type} (n : nat) (a b : list A) :
  List.length a = n -> firstn n (a ++ b) = a.
Proof.
  intros <-. rewrite firstn_app, firstn_all, Nat.sub_diag.
  simpl. apply app_nil_r.
Qed.

Lemma hour_of_range (l : Z) : (0 <= hour_of l <= 23)%Z.
Proof.
  unfold hour_of, msPerDay, msPerHour.
  pose proof (Z.mod_pos_bound l 86400000 ltac:(lia)) as H.
  set (r := (l mod 86400000)%Z) in *. clearbody r.
  split.
  - apply Z.div_pos; lia.
  - apply Z.lt_succ_r. apply Z.div_lt_upper_bound; lia.
Qed.

Lemma min_of_range (l : Z) : (0 <= min_of l <= 59)%Z.
Proof.
  unfold min_of.
  pose proof (Z.mod_pos_bound ((l mod msPerDay) / msPerMinute) 60
                ltac:(lia)).
  lia.
Qed.

(** [toTimeString().slice(0, 5)] is the local hour and minute. *)
Lemma toTimeString_slice (eng : Engine) (t : Z) :
  slice0 5 (toTimeString eng t)
  = hhmm (hour_of (t + LocalTZA eng)) (min_of (t + LocalTZA eng)).
Proof.
  unfold toTimeString, slice0, hhmm. cbv zeta.
  set (l := (t + LocalTZA eng)%Z).
  rewrite (app_assoc (dec_digits 2 (hour_of l))).
  rewrite (app_assoc (dec_digits 2 (hour_of l) ++ [c_colon])).
  rewrite <- (app_assoc (dec_digits 2 (hour_of l))).
  apply firstn_app_exact.
  rewrite !length_app, !dec_digits_length. reflexivity.
Qed.

(** What the step does with a time that is new or modified. *)
Lemma time_step_cases (eng : Engine) (d : Doc) :
  isNew d || isModified d "time" = true ->
  (test timeRegex (time (fields d)) = true /\ time_step eng d = (d, None))
  \/ (test timeRegex (time (fields d)) = false
      /\ Date_parse eng (lit "2000-01-01T" ++ time (fields d)) = None
      /\ time_step eng d = (d, Some "Time must be in HH:MM format"%string))
  \/ (exists t,
        test timeRegex (time (fields d)) = false
        /\ Date_parse eng (lit "2000-01-01T" ++ time (fields d)) = Some t
        /\ time_step eng d
           = (assign_time (hhmm (hour_of (t + LocalTZA eng))
                                (min_of (t + LocalTZA eng))) d, None)).
Proof.
  intros Hd. unfold time_step, time_try. rewrite Hd.
  destruct (test timeRegex (time (fields d))) eqn:Er; cbn [negb]; auto.
  destruct (Date_parse eng (lit "2000-01-01T" ++ time (fields d)))
    as [t|] eqn:Ep; auto.
  right. right. exists t. rewrite toTimeString_slice. auto.
Qed.

(** X4: a time that the time step lets pass matches the strict pattern
    when the step ends: it is [H:MM] or [HH:MM] with an hour up to 23 and
    a minute up to 59. *)
Theorem stored_time_matches_pattern (eng : Engine) (d : Doc) :
  isNew d || isModified d "time" = true ->
  snd (time_step eng d) = None ->
  test timeRegex (time (fields (fst (time_step eng d)))) = true.
Proof.
  intros Hd Hok.
  destruct (time_step_cases eng d Hd)
    as [[Hr E] | [(_ & _ & E) | (t & _ & _ & E)]];
    rewrite E in *; simpl in *.
  - exact Hr.
  - discriminate.
  - apply timeRegex_hhmm; [apply hour_of_range | apply min_of_range].
Qed.

Lemma stored_time_matches_pattern_witness :
  let d := new_event (lit "Tech Conference 2024") (lit "2024-12-15")
                     (lit "18:45:30") in
  isNew d || isModified d "time" = true
  /\ time (fields (fst (time_step utc_engine d))) = lit "18:45"
  /\ test timeRegex (time (fields (fst (time_step utc_engine d)))) = true.
Proof.
  intros d. split; [reflexivity|]. split; [reflexivity|].
  apply (@stored_time_matches_pattern utc_engine d); reflexivity.
Defined.

(** *** Reading digits back *)

Lemma digit_val_unit (v : Z) :
  (0 <= v <= 9)%Z -> digit_val (Z.to_N (48 + v)) = Some v.
Proof.
  intros H. unfold digit_val. rewrite digit_unit by assumption.
  f_equal. lia.
Qed.

Lemma read_digits_last (n : nat) :
  forall acc s,
    read_digits (S n) acc s
    = match read_digits n acc s with
      | Some (a, c :: r) =>
          match digit_val c with
          | Some d => Some (10 * a + d, r)%Z
          | None => None
          end
      | _ => None
      end.
Proof.
  induction n as [|n IH]; intros acc s.
  - destruct s as [|c s]; [reflexivity|].
    cbn [read_digits]. destruct (digit_val c); reflexivity.
  - destruct s as [|c s]; [reflexivity|].
    change (read_digits (S (S n)) acc (c :: s))
      with (match digit_val c with
            | Some d => read_digits (S n) (10 * acc + d) s
            | None => None
            end).
    change (read_digits (S n) acc (c :: s))
      with (match digit_val c with
            | Some d => read_digits n (10 * acc + d) s
            | None => None
            end).
    destruct (digit_val c); [apply IH | reflexivity].
Qed.

Lemma read_dec_digits (n : nat) :
  forall v acc r,
    (0 <= v < 10 ^ Z.of_nat n)%Z ->
    read_digits n acc (dec_digits n v ++ r)
    = Some (acc * 10 ^ Z.of_nat n + v, r)%Z.
Proof.
  induction n as [|n IH]; intros v acc r Hv.
  - cbn [dec_digits read_digits app]. f_equal. f_equal.
    change (10 ^ Z.of_nat 0)%Z with 1%Z in *. lia.
  - rewrite Nat2Z.inj_succ, Z.pow_succ_r in * by lia.
    rewrite read_digits_last. cbn [dec_digits].
    rewrite <- app_assoc. cbn [app].
    pose proof (Z.mod_pos_bound v 10 ltac:(lia)) as Hm.
    pose proof (Z.div_mod v 10 ltac:(lia)) as Hd.
    rewrite IH.
    + rewrite digit_val_unit by lia. f_equal. f_equal. lia.
    + split; [apply Z.div_pos; lia|].
      apply Z.div_lt_upper_bound; lia.
Qed.

Lemma read_two (v : Z) (r : jsstring) :
  (0 <= v <= 99)%Z -> read_digits 2 0 (dec_digits 2 v ++ r) = Some (v, r).
Proof.
  intros H. rewrite read_dec_digits by (change (10 ^ Z.of_nat 2)%Z with 100%Z; lia).
  reflexivity.
Qed.

(** *** Times in the date-time format *)

Lemma parse_iso_T (r : jsstring) :
  parse_iso (lit "2000-01-01T" ++ r)
  = match parse_time r with
    | Some (hh, mi, ss, ms, z) =>
        Some {| f_year := 2000; f_month := 1; f_day := 1;
                f_has_time := true;
                f_hour := hh; f_min := mi; f_sec := ss; f_ms := ms;
                f_zone := z |}
    | None => None
    end.
Proof. reflexivity. Qed.

Lemma parse_time_hhmmss (h m s : Z) :
  (0 <= h <= 99)%Z -> (0 <= m <= 99)%Z -> (0 <= s <= 99)%Z ->
  parse_time (hhmmss h m s) = Some (h, m, s, 0%Z, None).
Proof.
  intros Hh Hm Hs. unfold hhmmss, hhmm, parse_time.
  rewrite <- !app_assoc. cbn [app].
  rewrite read_two by assumption. cbv beta iota.
  change (c_colon =? c_colon)%N with true. cbv iota.
  rewrite read_two by assumption. cbv beta iota.
  change (c_colon =? c_colon)%N with true. cbv iota.
  rewrite <- (app_nil_r (dec_digits 2 s)).
  rewrite read_two by assumption. reflexivity.
Qed.

Lemma parse_time_hhmm_Z (h m : Z) :
  (0 <= h <= 99)%Z -> (0 <= m <= 99)%Z ->
  parse_time (hhmm h m ++ [c_Z]) = Some (h, m, 0%Z, 0%Z, Some 0%Z).
Proof.
  intros Hh Hm. unfold hhmm, parse_time.
  rewrite <- !app_assoc. cbn [app].
  rewrite read_two by assumption. cbv beta iota.
  change (c_colon =? c_colon)%N with true. cbv iota.
  rewrite read_two by assumption. reflexivity.
Qed.

Lemma fields_in_range_time (h m s ms : Z) (z : option Z) :
  (0 <= h <= 23)%Z -> (0 <= m <= 59)%Z -> (0 <= s <= 59)%Z ->
  fields_in_range
    {| f_year := 2000; f_month := 1; f_day := 1; f_has_time := true;
       f_hour := h; f_min := m; f_sec := s; f_ms := ms; f_zone := z |}
  = true.
Proof.
  intros Hh Hm Hs. unfold fields_in_range.
  cbn [f_month f_day f_hour f_min f_sec f_ms].
  repeat (apply andb_true_iff; split); try reflexivity;
    try (apply Z.leb_le; lia).
  apply orb_true_iff. left. apply Z.ltb_lt. lia.
Qed.

(** The instant of a time of day on 2000-01-01, local or with the offset
    [off] in minutes. *)
Lemma es_parse_time (tza h m s : Z) (z : option Z) (r : jsstring) :
  (0 <= h <= 23)%Z -> (0 <= m <= 59)%Z -> (0 <= s <= 59)%Z ->
  (Z.abs tza < msPerDay)%Z ->
  (forall off, z = Some off -> (Z.abs off <= 1440)%Z) ->
  parse_time r = Some (h, m, s, 0%Z, z) ->
  es_parse tza (lit "2000-01-01T" ++ r)
  = EsTime (946684800000 + h * msPerHour + m * msPerMinute
            + s * msPerSecond
            - match z with
              | Some off => off * msPerMinute
              | None => tza
              end)%Z.
Proof.
  intros Hh Hm Hs Htz Hz Hp. unfold es_parse.
  rewrite parse_iso_T, Hp. cbv beta iota.
  rewrite fields_in_range_time by assumption. cbn [negb].
  cbn [f_year f_month f_day].
  change (days_in_month 2000 1 <? 1)%Z with false. cbv iota.
  unfold fields_time.
  cbn [f_year f_month f_day f_has_time f_hour f_min f_sec f_ms f_zone].
  change (days_from_civil 2000 1 1 * msPerDay)%Z with 946684800000%Z.
  assert (E : forall a b : Z, a = b ->
            (Z.abs a <=? maxTimeValue)%Z = true ->
            (if (Z.abs a <=? maxTimeValue)%Z then EsTime a else EsNaN)
            = EsTime b).
  { intros a b -> ->. reflexivity. }
  unfold msPerDay, msPerHour, msPerMinute, msPerSecond, maxTimeValue in *.
  destruct z as [off|].
  - specialize (Hz off eq_refl). apply E; [lia|]. apply Z.leb_le. lia.
  - apply E; [lia|]. apply Z.leb_le. lia.
Qed.

Lemma hour_min_of_time (h m s : Z) :
  (0 <= h <= 23)%Z -> (0 <= m <= 59)%Z -> (0 <= s <= 59)%Z ->
  let l := (946684800000 + h * msPerHour + m * msPerMinute
            + s * msPerSecond)%Z in
  hour_of l = h /\ min_of l = m.
Proof.
  intros Hh Hm Hs l. subst l.
  unfold hour_of, min_of, msPerDay, msPerHour, msPerMinute, msPerSecond.
  set (tod := (h * 3600000 + m * 60000 + s * 1000)%Z).
  assert (Et : ((946684800000 + h * 3600000 + m * 60000 + s * 1000)
                mod 86400000 = tod)%Z).
  { symmetry. apply Z.mod_unique with 10957%Z; subst tod; lia. }
  rewrite Et. subst tod. split.
  - symmetry. apply Z.div_unique with (m * 60000 + s * 1000)%Z; lia.
  - replace ((h * 3600000 + m * 60000 + s * 1000) / 60000)%Z
      with (h * 60 + m)%Z
      by (apply Z.div_unique with (s * 1000)%Z; lia).
    symmetry. apply Z.mod_unique with h; lia.
Qed.

(** *** Seconds and zones *)

Lemma timeRegex_length (s : jsstring) :
  test timeRegex s = true -> (4 <= List.length s <= 5)%nat.
Proof.
  intros H. apply timeRegex_units in H as (hs & c & d & -> & _ & _ & Hh).
  rewrite length_app. simpl.
  destruct Hh as [(b & -> & _) | [(a & b & -> & _) | (b & -> & _)]];
    simpl; lia.
Qed.

Lemma Some_eq {A : Type} (a b : A) : Some a = Some b -> a = b.
Proof. intros H. injection H. auto. Qed.

Lemma hhmm_length (h m : Z) : List.length (hhmm h m) = 5%nat.
Proof. unfold hhmm. rewrite !length_app, !dec_digits_length. reflexivity. Qed.

(** X5: a time [HH:MM:SS] is stored as [HH:MM]: the seconds are dropped,
    whatever the zone of the server. *)
Theorem seconds_are_dropped (eng : Engine) (d : Doc) (h m s : Z) :
  (Z.abs (LocalTZA eng) < msPerDay)%Z ->
  isNew d || isModified d "time" = true ->
  (0 <= h <= 23)%Z -> (0 <= m <= 59)%Z -> (0 <= s <= 59)%Z ->
  time (fields d) = hhmmss h m s ->
  time_step eng d = (assign_time (hhmm h m) d, None).
Proof.
  intros Htz Hd Hh Hm Hs Ht.
  assert (Hp : Date_parse eng (lit "2000-01-01T" ++ time (fields d))
               = Some (946684800000 + h * msPerHour + m * msPerMinute
                       + s * msPerSecond - LocalTZA eng)%Z).
  { rewrite Ht. unfold Date_parse.
    rewrite (@es_parse_time (LocalTZA eng) h m s None) ; auto.
    - discriminate.
    - apply parse_time_hhmmss; lia. }
  assert (Hr : test timeRegex (time (fields d)) = false).
  { destruct (test timeRegex (time (fields d))) eqn:E; [|reflexivity].
    apply timeRegex_length in E. rewrite Ht in E.
    unfold hhmmss in E. rewrite !length_app, hhmm_length in E.
    simpl in E. lia. }
  destruct (time_step_cases eng d Hd)
    as [[Hr' _] | [(_ & Hn & _) | (t & _ & Hp' & E)]]; try congruence.
  rewrite E. rewrite Hp in Hp'. apply Some_eq in Hp'. subst t.
  replace (946684800000 + h * msPerHour + m * msPerMinute
           + s * msPerSecond - LocalTZA eng + LocalTZA eng)%Z
    with (946684800000 + h * msPerHour + m * msPerMinute
          + s * msPerSecond)%Z by lia.
  destruct (@hour_min_of_time h m s Hh Hm Hs) as [-> ->]. reflexivity.
Qed.

Lemma seconds_are_dropped_witness :
  let d := new_event (lit "Tech Conference 2024") (lit "2024-12-15")
                     (lit "07:05:59") in
  time_step (zoned_engine (-18000000)) d
  = (assign_time (lit "07:05") d, None).
Proof.
  intros d.
  apply (@seconds_are_dropped (zoned_engine (-18000000)) d 7 5 59);
    try reflexivity; simpl; lia.
Defined.

(** X6: a time with the zone designator [Z] is read as UTC and stored as
    the hour and minute of that instant in the zone of the server. *)
Theorem utc_time_is_localised (eng : Engine) (d : Doc) (h m : Z) :
  (Z.abs (LocalTZA eng) < msPerDay)%Z ->
  isNew d || isModified d "time" = true ->
  (0 <= h <= 23)%Z -> (0 <= m <= 59)%Z ->
  time (fields d) = hhmm h m ++ [c_Z] ->
  let l := (946684800000 + h * msPerHour + m * msPerMinute
            + LocalTZA eng)%Z in
  time_step eng d = (assign_time (hhmm (hour_of l) (min_of l)) d, None).
Proof.
  intros Htz Hd Hh Hm Ht l.
  assert (Hp : Date_parse eng (lit "2000-01-01T" ++ time (fields d))
               = Some (946684800000 + h * msPerHour + m * msPerMinute
                       + 0 * msPerSecond - 0 * msPerMinute)%Z).
  { rewrite Ht. unfold Date_parse.
    rewrite (@es_parse_time (LocalTZA eng) h m 0 (Some 0%Z)); auto; try lia.
    - intros off [= <-]. simpl. lia.
    - apply parse_time_hhmm_Z; lia. }
  assert (Hr : test timeRegex (time (fields d)) = false).
  { destruct (test timeRegex (time (fields d))) eqn:E; [|reflexivity].
    apply timeRegex_length in E. rewrite Ht in E.
    rewrite length_app, hhmm_length in E. simpl in E. lia. }
  destruct (time_step_cases eng d Hd)
    as [[Hr' _] | [(_ & Hn & _) | (t & _ & Hp' & E)]]; try congruence.
  rewrite E. rewrite Hp in Hp'. apply Some_eq in Hp'. subst t.
  subst l. do 3 f_equal; f_equal; lia.
Qed.

Lemma utc_time_is_localised_witness :
  let d := new_event (lit "Tech Conference 2024") (lit "2024-12-15")
                     (lit "23:30Z") in
  time_step (zoned_engine 3600000) d = (assign_time (lit "00:30") d, None).
Proof.
  intros d.
  apply (@utc_time_is_localised (zoned_engine 3600000) d 23 30);
    try reflexivity; simpl; lia.
Defined.

End TimeFacts.

(* --------------------------------------------------------------------- *)
(** ** More on dates and the date step                                    *)
(* --------------------------------------------------------------------- *)

Module DateFacts.
Import JS JSFacts EventModel EventFacts TimeFacts.

Local Open Scope Z_scope.

(** *** The calendar *)

Lemma civil_cycle_checked : all_below 146097 civil_cycle_check = true.
Proof. vm_cast_no_check (eq_refl true). Qed.

Lemma date_cycle_checked : all_below 148800 date_cycle_check = true.
Proof. vm_cast_no_check (eq_refl true). Qed.

Lemma days_from_civil_shift (y m d e : Z) :
  days_from_civil (y + 400 * e) m d = days_from_civil y m d + 146097 * e.
Proof.
  unfold days_from_civil. cbv zeta.
  set (y1 := if m <=? 2 then y - 1 else y).
  replace (if m <=? 2 then y + 400 * e - 1 else y + 400 * e)
    with (y1 + e * 400) by (subst y1; destruct (m <=? 2); lia).
  rewrite Z.div_add by lia.
  replace (y1 + e * 400 - (y1 / 400 + e) * 400) with (y1 - y1 / 400 * 400)
    by lia.
  lia.
Qed.

Lemma civil_from_days_shift (z e : Z) :
  civil_from_days (z + 146097 * e)
  = let '(y, m, d) := civil_from_days z in (y + 400 * e, m, d).
Proof.
  unfold civil_from_days. cbv zeta.
  replace (z + 146097 * e + 719468) with (z + 719468 + e * 146097) by lia.
  rewrite Z.div_add by lia.
  set (z1 := z + 719468).
  replace (z1 + e * 146097 - (z1 / 146097 + e) * 146097)
    with (z1 - z1 / 146097 * 146097) by lia.
  set (doe := z1 - z1 / 146097 * 146097).
  set (yoe := (doe - doe / 1460 + doe / 36524 - doe / 146096) / 365).
  set (doy := doe - (365 * yoe + yoe / 4 - yoe / 100)).
  set (mp := (5 * doy + 2) / 153).
  destruct (mp <? 10); destruct (_ <=? 2); f_equal; f_equal; lia.
Qed.

Lemma days_in_month_shift (y m e : Z) :
  days_in_month (y + 400 * e) m = days_in_month y m.
Proof.
  unfold days_in_month, is_leap.
  replace (y + 400 * e) with (y + (100 * e) * 4) at 1 by lia.
  replace (y + 400 * e) with (y + (4 * e) * 100) at 1 by lia.
  replace (y + 400 * e) with (y + e * 400) by lia.
  rewrite !Z_mod_plus_full. reflexivity.
Qed.

(** Every day number is the day number of its civil date, which is a
    date of the calendar. *)
Lemma civil_from_days_valid (z : Z) :
  let '(y, m, d) := civil_from_days z in
  days_from_civil y m d = z
  /\ 1 <= m <= 12 /\ 1 <= d <= days_in_month y m
  /\ 400 * ((z + 719468) / 146097) <= y
     <= 400 * ((z + 719468) / 146097) + 400.
Proof.
  set (e := (z + 719468) / 146097).
  set (doe := (z + 719468) mod 146097).
  assert (Hz : z = doe - 719468 + 146097 * e).
  { pose proof (Z.div_mod (z + 719468) 146097 ltac:(lia)).
    subst e doe. lia. }
  assert (Hdoe : 0 <= doe < Z.of_N 146097).
  { subst doe. apply Z.mod_pos_bound. lia. }
  pose proof (@all_below_spec _ _ civil_cycle_checked doe Hdoe) as Hc.
  unfold civil_cycle_check in Hc. cbv zeta in Hc.
  replace (civil_from_days z)
    with (civil_from_days (doe - 719468 + 146097 * e))
    by (rewrite <- Hz; reflexivity).
  rewrite civil_from_days_shift.
  destruct (civil_from_days (doe - 719468)) as [[y m] d].
  repeat (apply andb_true_iff in Hc as [Hc ?]).
  repeat match goal with
         | H : (_ <=? _) = true |- _ => apply Z.leb_le in H
         | H : (_ =? _) = true |- _ => apply Z.eqb_eq in H
         end.
  rewrite days_from_civil_shift, days_in_month_shift. lia.
Qed.

(** Every date of the calendar is the civil date of its day number. *)
Lemma days_from_civil_valid (y m d : Z) :
  1 <= m <= 12 -> 1 <= d <= days_in_month y m ->
  civil_from_days (days_from_civil y m d) = (y, m, d).
Proof.
  intros Hm Hd.
  set (e := y / 400). set (y0 := y mod 400).
  assert (Hy : y = y0 + 400 * e).
  { pose proof (Z.div_mod y 400 ltac:(lia)). subst e y0. lia. }
  assert (Hy0 : 0 <= y0 < 400) by (subst y0; apply Z.mod_pos_bound; lia).
  assert (Hd31 : d <= 31).
  { unfold days_in_month in Hd.
    destruct (m =? 2); [destruct (is_leap y)|]; try lia.
    destruct ((m =? 4) || (m =? 6) || (m =? 9) || (m =? 11)); lia. }
  set (i := 372 * y0 + 31 * (m - 1) + (d - 1)).
  assert (Hi : 0 <= i < Z.of_N 148800) by (subst i; lia).
  pose proof (@all_below_spec _ _ date_cycle_checked i Hi) as Hc.
  unfold date_cycle_check in Hc. cbv zeta in Hc.
  replace (i / 372) with y0 in Hc
    by (apply Z.div_unique with (31 * (m - 1) + (d - 1)); subst i; lia).
  replace (i mod 372) with (31 * (m - 1) + (d - 1)) in Hc
    by (apply Z.mod_unique with y0; subst i; lia).
  replace ((31 * (m - 1) + (d - 1)) / 31) with (m - 1) in Hc
    by (apply Z.div_unique with (d - 1); lia).
  replace (i mod 31) with (d - 1) in Hc
    by (apply Z.mod_unique with (12 * y0 + (m - 1)); subst i; lia).
  replace (m - 1 + 1) with m in Hc by lia.
  replace (d - 1 + 1) with d in Hc by lia.
  rewrite Hy in Hd. rewrite days_in_month_shift in Hd.
  replace (d <=? days_in_month y0 m) with true in Hc
    by (symmetry; apply Z.leb_le; lia).
  rewrite Hy, days_from_civil_shift, civil_from_days_shift.
  destruct (civil_from_days (days_from_civil y0 m d)) as [[y' m'] d'].
  repeat (apply andb_true_iff in Hc as [Hc ?]).
  repeat match goal with
         | H : (_ =? _) = true |- _ => apply Z.eqb_eq in H
         end.
  f_equal; [f_equal|]; lia.
Qed.

(** *** Reading a date text back *)

Lemma dec_digits_head (n : nat) (v : Z) :
  exists c s, dec_digits (S n) v = c :: s /\ is_digit c = true.
Proof.
  pose proof (dec_digits_units (S n) v) as Hu.
  pose proof (dec_digits_length (S n) v) as Hl.
  destruct (dec_digits (S n) v) as [|c s]; [discriminate|].
  inversion Hu; subst. eauto.
Qed.

Lemma parse_year_text (y : Z) (r : jsstring) :
  Z.abs y < 1000000 -> parse_year (year_text y ++ r) = Some (y, r).
Proof.
  intros Hy. unfold year_text.
  destruct ((0 <=? y) && (y <=? 9999)) eqn:E.
  - apply andb_true_iff in E as [E1 E2].
    apply Z.leb_le in E1. apply Z.leb_le in E2.
    destruct (dec_digits_head 3 y) as (c & s & Ec & Hc).
    assert (Hr : read_digits 4 0 (dec_digits 4 y ++ r) = Some (y, r)).
    { rewrite read_dec_digits
        by (change (10 ^ Z.of_nat 4) with 10000; lia).
      reflexivity. }
    rewrite Ec in *. cbn [app] in *. unfold parse_year.
    replace (c =? c_plus)%N with false.
    + replace (c =? c_hyphen)%N with false; [exact Hr|].
      symmetry. apply N.eqb_neq. intros ->. discriminate.
    + symmetry. apply N.eqb_neq. intros ->. discriminate.
  - assert (Hr : read_digits 6 0 (dec_digits 6 (Z.abs y) ++ r)
                 = Some (Z.abs y, r)).
    { rewrite read_dec_digits
        by (change (10 ^ Z.of_nat 6) with 1000000; lia).
      reflexivity. }
    apply andb_false_iff in E.
    destruct (y <? 0) eqn:En.
    + apply Z.ltb_lt in En. cbn [app]. unfold parse_year.
      change (c_hyphen =? c_plus)%N with false.
      change (c_hyphen =? c_hyphen)%N with true. cbv iota.
      rewrite Hr. cbv beta iota.
      replace (Z.abs y =? 0) with false
        by (symmetry; apply Z.eqb_neq; lia).
      f_equal. f_equal. lia.
    + apply Z.ltb_ge in En. cbn [app]. unfold parse_year.
      change (c_plus =? c_plus)%N with true. cbv iota.
      rewrite Hr. f_equal. f_equal. lia.
Qed.

(** After the date text, the parser goes on with what follows. *)
Lemma parse_iso_date_text (y m d : Z) (r : jsstring) :
  Z.abs y < 1000000 -> 0 <= m <= 99 -> 0 <= d <= 99 ->
  parse_iso (year_text y ++ [c_hyphen] ++ dec_digits 2 m ++ [c_hyphen]
             ++ dec_digits 2 d ++ r)
  = parse_rest y m d r.
Proof.
  intros Hy Hm Hd. unfold parse_iso.
  rewrite parse_year_text by assumption. cbn [app]. cbv beta iota.
  change (c_hyphen =? c_hyphen)%N with true. cbv iota.
  rewrite read_two by assumption. cbv beta iota.
  change (c_hyphen =? c_hyphen)%N with true. cbv iota.
  rewrite read_two by assumption. reflexivity.
Qed.

Lemma fields_in_range_date (y m d : Z) :
  1 <= m <= 12 -> 1 <= d <= 31 -> fields_in_range (date_only y m d) = true.
Proof.
  intros Hm Hd. unfold fields_in_range, date_only.
  cbn [f_month f_day f_hour f_min f_sec f_ms].
  repeat (apply andb_true_iff; split); try reflexivity;
    apply Z.leb_le; lia.
Qed.

Lemma days_in_month_le_31 (y m : Z) : days_in_month y m <= 31.
Proof.
  unfold days_in_month.
  destruct (m =? 2); [destruct (is_leap y); lia|].
  destruct ((m =? 4) || (m =? 6) || (m =? 9) || (m =? 11)); lia.
Qed.

(** The text of a date of the calendar parses, in every zone, to the
    start of that day in UTC. *)
Lemma es_parse_date_text (tza y m d : Z) :
  Z.abs y < 1000000 -> 1 <= m <= 12 -> 1 <= d <= days_in_month y m ->
  Z.abs (days_from_civil y m d) <= 100000000 ->
  es_parse tza (year_text y ++ [c_hyphen] ++ dec_digits 2 m ++ [c_hyphen]
                ++ dec_digits 2 d)
  = EsTime (days_from_civil y m d * msPerDay).
Proof.
  intros Hy Hm Hd Hz. unfold es_parse.
  pose proof (days_in_month_le_31 y m) as H31.
  rewrite <- (app_nil_r (dec_digits 2 d)).
  rewrite parse_iso_date_text by lia.
  cbn [parse_rest]. cbv beta iota.
  rewrite fields_in_range_date by lia. cbn [negb].
  cbn [date_only f_year f_month f_day].
  replace (days_in_month y m <? d) with false
    by (symmetry; apply Z.ltb_ge; lia).
  unfold fields_time, date_only.
  cbn [f_year f_month f_day f_has_time f_hour f_min f_sec f_ms f_zone].
  set (z := days_from_civil y m d) in *.
  unfold msPerDay, msPerHour, msPerMinute, msPerSecond, maxTimeValue.
  replace (z * 86400000 + 0 * 3600000 + 0 * 60000 + 0 * 1000 + 0)
    with (z * 86400000) by lia.
  replace (Z.abs (z * 86400000) <=? 8640000000000000) with true
    by (symmetry; apply Z.leb_le; lia).
  reflexivity.
Qed.

Lemma day_of_range (t : Z) :
  Z.abs t <= maxTimeValue -> Z.abs (t / msPerDay) <= 100000000.
Proof.
  unfold maxTimeValue, msPerDay. intros H.
  assert (-100000000 <= t / 86400000 <= 100000000); [|lia].
  split.
  - apply Z.div_le_lower_bound; lia.
  - apply Z.div_le_upper_bound; lia.
Qed.

Lemma year_of_range (z : Z) :
  Z.abs z <= 100000000 ->
  Z.abs (fst (fst (civil_from_days z))) < 1000000.
Proof.
  intros Hz. pose proof (civil_from_days_valid z) as H.
  destruct (civil_from_days z) as [[y m] d]. simpl.
  destruct H as (_ & _ & _ & Hy).
  assert (-1000 <= (z + 719468) / 146097 <= 1000); [|lia].
  split.
  - apply Z.div_le_lower_bound; lia.
  - apply Z.div_le_upper_bound; lia.
Qed.

(** The date text of an instant parses to the start of its UTC day. *)
Lemma Date_parse_iso_date_text (eng : Engine) (t : Z) :
  Z.abs t <= maxTimeValue ->
  Date_parse eng (iso_date_text t) = Some (t / msPerDay * msPerDay).
Proof.
  intros Ht. unfold Date_parse, iso_date_text.
  pose proof (day_of_range t Ht) as Hz.
  pose proof (year_of_range _ Hz) as Hy.
  pose proof (civil_from_days_valid (t / msPerDay)) as Hv.
  destruct (civil_from_days (t / msPerDay)) as [[y m] d].
  simpl in Hy. destruct Hv as (Hr & Hm & Hd & _).
  rewrite es_parse_date_text by (rewrite ?Hr; auto).
  rewrite Hr. reflexivity.
Qed.

Lemma iso_date_text_day (t : Z) :
  iso_date_text (t / msPerDay * msPerDay) = iso_date_text t.
Proof.
  unfold iso_date_text.
  rewrite Z.div_mul by (unfold msPerDay; lia). reflexivity.
Qed.

Lemma Date_parse_range (eng : Engine) (s : jsstring) (t : Z) :
  legacy_in_range eng -> Date_parse eng s = Some t ->
  Z.abs t <= maxTimeValue.
Proof.
  intros Hl. unfold Date_parse, es_parse.
  destruct (parse_iso s) as [f|]; [|apply Hl].
  destruct (negb (fields_in_range f)); [discriminate|].
  destruct (days_in_month (f_year f) (f_month f) <? f_day f); [apply Hl|].
  destruct (Z.abs (fields_time (LocalTZA eng) f) <=? maxTimeValue) eqn:E;
    [|discriminate].
  intros [= <-]. apply Z.leb_le. exact E.
Qed.

Lemma utc_engine_legacy_in_range : legacy_in_range utc_engine.
Proof. intros s t H. discriminate H. Qed.

Lemma assign_date_twice (v : jsstring) (d : Doc) :
  assign_date v (assign_date v d) = assign_date v d.
Proof. reflexivity. Qed.

(** X7: the date step is idempotent: a date that it has normalised is,
    when it is normalised again, read as the start of the same UTC day
    and stored as the same text. *)
Theorem date_step_idempotent (eng : Engine) (d : Doc) :
  legacy_in_range eng ->
  isNew d || isModified d "date" = true ->
  snd (date_step eng d) = None ->
  date_step eng (fst (date_step eng d)) = (fst (date_step eng d), None).
Proof.
  intros Hl Hd Hok. unfold date_step, date_try in *. rewrite Hd in *.
  destruct (Date_parse eng (date (fields d))) as [t|] eqn:Ep;
    [|discriminate].
  pose proof (Date_parse_range _ Hl Ep) as Ht.
  cbn [fst]. rewrite toISOString_split.
  change (isNew (assign_date (iso_date_text t) d)
          || isModified (assign_date (iso_date_text t) d) "date")
    with (isNew d || isModified d "date").
  change (date (fields (assign_date (iso_date_text t) d)))
    with (iso_date_text t).
  rewrite Hd, Date_parse_iso_date_text by assumption.
  rewrite toISOString_split, iso_date_text_day. reflexivity.
Qed.

Lemma date_step_idempotent_witness :
  let d := new_event (lit "Tech Conference 2024")
                     (lit "2024-12-15T23:59:59.999-05:00") (lit "09:00") in
  date (fields (fst (date_step utc_engine d))) = lit "2024-12-16"
  /\ date_step utc_engine (fst (date_step utc_engine d))
     = (fst (date_step utc_engine d), None).
Proof.
  intros d. split; [reflexivity|].
  apply (@date_step_idempotent utc_engine d utc_engine_legacy_in_range);
    reflexivity.
Defined.

Lemma ymd_year_text (y m d : Z) :
  0 <= y <= 9999 ->
  ymd y m d
  = year_text y ++ [c_hyphen] ++ dec_digits 2 m ++ [c_hyphen]
    ++ dec_digits 2 d.
Proof.
  intros Hy. unfold ymd, year_text.
  replace ((0 <=? y) && (y <=? 9999)) with true; [reflexivity|].
  symmetry. apply andb_true_iff. split; apply Z.leb_le; lia.
Qed.

(** The days of the years 0 to 9999 are time values. *)
Lemma days_from_civil_range (y m d : Z) :
  0 <= y <= 9999 -> 1 <= m <= 12 -> 1 <= d <= days_in_month y m ->
  Z.abs (days_from_civil y m d) <= 4000000.
Proof.
  intros Hy Hm Hd. pose proof (days_in_month_le_31 y m) as H31.
  unfold days_from_civil. cbv zeta.
  set (y1 := if m <=? 2 then y - 1 else y).
  assert (Hy1 : -1 <= y1 <= 9999) by (subst y1; destruct (m <=? 2); lia).
  pose proof (Z.mod_pos_bound (m + 9) 12 ltac:(lia)) as Hmp.
  set (mp := (m + 9) mod 12) in *.
  pose proof (Z.div_mod y1 400 ltac:(lia)) as He.
  pose proof (Z.mod_pos_bound y1 400 ltac:(lia)) as Hyoe.
  replace (y1 - y1 / 400 * 400) with (y1 mod 400) by lia.
  set (yoe := y1 mod 400) in *. set (era := y1 / 400) in *.
  assert (-1 <= era <= 24) by lia.
  assert (0 <= yoe / 4 <= 100)
    by (split; [apply Z.div_pos | apply Z.div_le_upper_bound]; lia).
  assert (0 <= yoe / 100 <= 4)
    by (split; [apply Z.div_pos | apply Z.div_le_upper_bound]; lia).
  assert (0 <= (153 * mp + 2) / 5 <= 400)
    by (split; [apply Z.div_pos | apply Z.div_le_upper_bound]; lia).
  lia.
Qed.

Lemma iso_date_text_of_day (y m d : Z) :
  0 <= y <= 9999 -> 1 <= m <= 12 -> 1 <= d <= days_in_month y m ->
  iso_date_text (days_from_civil y m d * msPerDay) = ymd y m d.
Proof.
  intros Hy Hm Hd. unfold iso_date_text.
  rewrite Z.div_mul by (unfold msPerDay; lia).
  rewrite days_from_civil_valid by assumption.
  symmetry. apply ymd_year_text. assumption.
Qed.

(** X8: a date [YYYY-MM-DD] of the calendar, with a year from 0000 to
    9999, is stored as it is written, in every zone. *)
Theorem canonical_date_kept (eng : Engine) (doc : Doc) (y m d : Z) :
  isNew doc || isModified doc "date" = true ->
  0 <= y <= 9999 -> 1 <= m <= 12 -> 1 <= d <= days_in_month y m ->
  date (fields doc) = ymd y m d ->
  date_step eng doc = (assign_date (ymd y m d) doc, None)
  /\ date (fields (fst (date_step eng doc))) = date (fields doc).
Proof.
  intros Hf Hy Hm Hd Ht.
  assert (E : date_step eng doc = (assign_date (ymd y m d) doc, None)).
  { unfold date_step, date_try. rewrite Hf, Ht.
    unfold Date_parse. rewrite ymd_year_text by assumption.
    rewrite es_parse_date_text; auto.
    - rewrite toISOString_split, iso_date_text_of_day by assumption.
      rewrite ymd_year_text by assumption. reflexivity.
    - lia.
    - pose proof (@days_from_civil_range y m d Hy Hm Hd). lia. }
  split; [exact E|]. rewrite E, Ht. reflexivity.
Qed.

Lemma canonical_date_kept_witness :
  let doc := new_event (lit "Tech Conference 2024") (lit "2024-02-29")
                       (lit "09:00") in
  date_step (zoned_engine 39600000) doc
  = (assign_date (lit "2024-02-29") doc, None).
Proof.
  intros doc.
  refine (proj1 (@canonical_date_kept (zoned_engine 39600000) doc
                   2024 2 29 eq_refl _ _ _ eq_refl));
    vm_compute; split; discriminate.
Defined.

(** *** Local date-times *)

Lemma parse_time_hhmm (h m : Z) :
  0 <= h <= 99 -> 0 <= m <= 99 ->
  parse_time (hhmm h m) = Some (h, m, 0, 0, None).
Proof.
  intros Hh Hm. unfold hhmm, parse_time. cbn [app].
  rewrite read_two by assumption. cbv beta iota.
  change (c_colon =? c_colon)%N with true. cbv iota.
  rewrite <- (app_nil_r (dec_digits 2 m)).
  rewrite read_two by assumption. reflexivity.
Qed.

Lemma es_parse_local_date_time (tza y m d h mi : Z) :
  0 <= y <= 9999 -> 1 <= m <= 12 -> 1 <= d <= days_in_month y m ->
  0 <= h <= 23 -> 0 <= mi <= 59 -> Z.abs tza < msPerDay ->
  es_parse tza (ymd y m d ++ [c_T] ++ hhmm h mi)
  = EsTime (days_from_civil y m d * msPerDay + h * msPerHour
            + mi * msPerMinute - tza).
Proof.
  intros Hy Hm Hd Hh Hmi Htz. unfold es_parse.
  pose proof (days_in_month_le_31 y m) as H31.
  pose proof (@days_from_civil_range y m d Hy Hm Hd) as Hz.
  rewrite ymd_year_text by assumption.
  rewrite <- !app_assoc.
  rewrite parse_iso_date_text by lia.
  cbn [app parse_rest]. change (c_T =? c_T)%N with true. cbv iota.
  rewrite parse_time_hhmm by lia. cbv beta iota.
  unfold fields_in_range, fields_time.
  cbn [f_year f_month f_day f_has_time f_hour f_min f_sec f_ms f_zone].
  replace (days_in_month y m <? d) with false
    by (symmetry; apply Z.ltb_ge; lia).
  set (z := days_from_civil y m d) in *.
  replace ((1 <=? m) && (m <=? 12) && (1 <=? d) && (d <=? 31)
           && (h <=? 24) && (mi <=? 59) && (0 <=? 59)
           && ((h <? 24) || (mi =? 0) && (0 =? 0) && (0 =? 0)))
    with true.
  - cbn [negb]. unfold msPerDay, msPerHour, msPerMinute, msPerSecond,
      maxTimeValue in *.
    replace (z * 86400000 + h * 3600000 + mi * 60000 + 0 * 1000 + 0 - tza)
      with (z * 86400000 + h * 3600000 + mi * 60000 - tza) by lia.
    replace (Z.abs (z * 86400000 + h * 3600000 + mi * 60000 - tza)
             <=? 8640000000000000) with true
      by (symmetry; apply Z.leb_le; lia).
    reflexivity.
  - symmetry.
    repeat (apply andb_true_iff; split); try reflexivity;
      try (apply Z.leb_le; lia).
    apply orb_true_iff. left. apply Z.ltb_lt. lia.
Qed.

(** X9: a date-time without a zone, [YYYY-MM-DDTHH:MM], is read in the
    zone of the server and stored as the UTC date of that instant: the
    date written when the time of day is not earlier than the offset of
    the zone and less than a day later, the day before when the time of
    day is earlier than the offset of a zone east of UTC. *)
Theorem local_date_time_utc_day (eng : Engine) (doc : Doc)
    (y m d h mi : Z) :
  isNew doc || isModified doc "date" = true ->
  0 <= y <= 9999 -> 1 <= m <= 12 -> 1 <= d <= days_in_month y m ->
  0 <= h <= 23 -> 0 <= mi <= 59 -> Z.abs (LocalTZA eng) < msPerDay ->
  date (fields doc) = ymd y m d ++ [c_T] ++ hhmm h mi ->
  let tod := h * msPerHour + mi * msPerMinute in
  let k := (tod - LocalTZA eng) / msPerDay in
  date_step eng doc
  = (assign_date
       (iso_date_text ((days_from_civil y m d + k) * msPerDay)) doc, None)
  /\ (LocalTZA eng <= tod < LocalTZA eng + msPerDay ->
      date_step eng doc = (assign_date (ymd y m d) doc, None))
  /\ (tod < LocalTZA eng -> k = -1).
Proof.
  intros Hf Hy Hm Hd Hh Hmi Htz Ht tod k.
  assert (E : date_step eng doc
              = (assign_date
                   (iso_date_text ((days_from_civil y m d + k) * msPerDay))
                   doc, None)).
  { unfold date_step, date_try. rewrite Hf, Ht. unfold Date_parse.
    rewrite es_parse_local_date_time by assumption.
    rewrite toISOString_split.
    rewrite <- (iso_date_text_day
                  (days_from_civil y m d * msPerDay + h * msPerHour
                   + mi * msPerMinute - LocalTZA eng)).
    replace (days_from_civil y m d * msPerDay + h * msPerHour
             + mi * msPerMinute - LocalTZA eng)
      with (tod - LocalTZA eng + days_from_civil y m d * msPerDay)
      by (subst tod; lia).
    rewrite Z.div_add by (unfold msPerDay; lia).
    fold k. replace (k + days_from_civil y m d)
      with (days_from_civil y m d + k) by lia.
    reflexivity. }
  split; [exact E|]. split.
  - intros Hk. rewrite E.
    replace k with 0.
    + rewrite Z.add_0_r, iso_date_text_of_day by assumption. reflexivity.
    + subst k. symmetry. apply Z.div_small. lia.
  - intros Hk. subst k. symmetry.
    apply Z.div_unique with (tod - LocalTZA eng + msPerDay).
    + left. unfold msPerDay, msPerHour, msPerMinute in *. subst tod. lia.
    + lia.
Qed.

Lemma local_date_time_utc_day_witness :
  let doc := new_event (lit "Tech Conference 2024")
                       (lit "2024-03-01T00:30") (lit "09:00") in
  date_step (zoned_engine 3600000) doc
  = (assign_date (lit "2024-02-29") doc, None).
Proof.
  intros doc.
  refine (proj1 (@local_date_time_utc_day (zoned_engine 3600000) doc
                   2024 3 1 0 30 eq_refl _ _ _ _ _ _ eq_refl));
    vm_compute; try split; try discriminate; reflexivity.
Defined.

End DateFacts.

(* --------------------------------------------------------------------- *)
(** ** More on the hook of the Event schema as a whole                    *)
(* --------------------------------------------------------------------- *)

Module HookFacts.
Import JS JSFacts EventModel EventFacts TimeFacts DateFacts.

(** *** The shape of what the steps return *)

Lemma put_slug_same (d : Doc) : put_slug (slug (fields d)) d = d.
Proof. destruct d as [[] ? ?]. reflexivity. Qed.

Lemma assign_date_same (d : Doc) : assign_date (date (fields d)) d = d.
Proof. destruct d as [[] ? ?]. reflexivity. Qed.

Lemma assign_time_same (d : Doc) : assign_time (time (fields d)) d = d.
Proof. destruct d as [[] ? ?]. reflexivity. Qed.

Lemma date_step_shape (eng : Engine) (d : Doc) :
  exists v, fst (date_step eng d) = assign_date v d.
Proof.
  unfold date_step.
  destruct (isNew d || isModified d "date");
    [destruct (date_try eng (date (fields d)))|];
    simpl; eauto using eq_sym, assign_date_same.
Qed.

Lemma time_step_shape (eng : Engine) (d : Doc) :
  exists v, fst (time_step eng d) = assign_time v d.
Proof.
  unfold time_step.
  destruct (isNew d || isModified d "time");
    [destruct (negb (test timeRegex (time (fields d))));
     [destruct (time_try eng (time (fields d)))|]|];
    cbn [fst]; eauto using eq_sym, assign_time_same.
Qed.

Lemma and_then_fst (f g : step) (d : Doc) :
  fst (and_then f g d)
  = match snd (f d) with
    | None => fst (g (fst (f d)))
    | Some _ => fst (f d)
    end.
Proof. unfold and_then. destruct (f d) as [d' [e|]]; reflexivity. Qed.

Lemma and_then_snd (f g : step) (d : Doc) :
  snd (and_then f g d)
  = match snd (f d) with
    | None => snd (g (fst (f d)))
    | Some e => Some e
    end.
Proof. unfold and_then. destruct (f d) as [d' [e|]]; reflexivity. Qed.

(** Whatever happens, the document that the hook leaves is the one it
    got with a slug, a date and a time put in. *)
Lemma pre_save_shape (eng : Engine) (d : Doc) :
  exists v1 v2 v3,
    fst (pre_save eng d) = assign_time v3 (assign_date v2 (put_slug v1 d)).
Proof.
  unfold pre_save.
  destruct (slug_step_shape eng d) as [v1 E1].
  rewrite (@and_then_ok _ _ _ _ E1).
  set (d1 := put_slug v1 d).
  rewrite and_then_fst.
  destruct (date_step_shape eng d1) as [v2 E2].
  destruct (snd (date_step eng d1)).
  - exists v1, v2, (time (fields (assign_date v2 d1))).
    rewrite assign_time_same. exact E2.
  - rewrite and_then_fst.
    destruct (time_step_shape eng (fst (date_step eng d1))) as [v3 E3].
    exists v1, v2, v3.
    destruct (snd (time_step eng (fst (date_step eng d1)))).
    + rewrite E3, E2. reflexivity.
    + rewrite guards_fields, E3, E2. reflexivity.
Qed.


(** *** Which error comes first *)

Lemma date_step_snd (eng : Engine) (d : Doc) :
  snd (date_step eng d)
  = if date_refused eng d
    then Some "Date must be in a valid format (YYYY-MM-DD or ISO string)"%string
    else None.
Proof.
  unfold date_step, date_try, date_refused.
  destruct (isNew d || isModified d "date"); [|reflexivity].
  destruct (Date_parse eng (date (fields d))); reflexivity.
Qed.

Lemma time_step_snd (eng : Engine) (d : Doc) :
  snd (time_step eng d)
  = if time_refused eng d
    then Some "Time must be in HH:MM format"%string
    else None.
Proof.
  unfold time_step, time_try, time_refused.
  destruct (isNew d || isModified d "time"); [|reflexivity].
  destruct (negb (test timeRegex (time (fields d)))); [|reflexivity].
  destruct (Date_parse eng (lit "2000-01-01T" ++ time (fields d)));
    reflexivity.
Qed.

Lemma guards_snd (d : Doc) :
  snd (and_then agenda_guard tags_guard d)
  = if (List.length (agenda (fields d)) =? 0)%nat
    then Some "Agenda cannot be empty"%string
    else if (List.length (tags (fields d)) =? 0)%nat
         then Some "Tags cannot be empty"%string
         else None.
Proof.
  unfold and_then, agenda_guard, tags_guard.
  destruct (List.length (agenda (fields d)) =? 0)%nat; [reflexivity|].
  destruct (List.length (tags (fields d)) =? 0)%nat; reflexivity.
Qed.

Lemma pre_save_snd (eng : Engine) (d : Doc) :
  snd (pre_save eng d)
  = if date_refused eng d
    then Some "Date must be in a valid format (YYYY-MM-DD or ISO string)"%string
    else if time_refused eng d
    then Some "Time must be in HH:MM format"%string
    else if (List.length (agenda (fields d)) =? 0)%nat
    then Some "Agenda cannot be empty"%string
    else if (List.length (tags (fields d)) =? 0)%nat
    then Some "Tags cannot be empty"%string
    else None.
Proof.
  unfold pre_save.
  destruct (slug_step_shape eng d) as [v1 E1].
  rewrite (@and_then_ok _ _ _ _ E1).
  rewrite and_then_snd, date_step_snd.
  change (date_refused eng (put_slug v1 d)) with (date_refused eng d).
  destruct (date_refused eng d); [reflexivity|].
  destruct (date_step_shape eng (put_slug v1 d)) as [v2 E2]. rewrite E2.
  rewrite and_then_snd, time_step_snd.
  change (time_refused eng (assign_date v2 (put_slug v1 d)))
    with (time_refused eng d).
  destruct (time_refused eng d); [reflexivity|].
  destruct (time_step_shape eng (assign_date v2 (put_slug v1 d)))
    as [v3 E3].
  rewrite E3, guards_snd. reflexivity.
Qed.

(** X11: the hook reports the first of: a date that is new or modified
    and does not parse; a time that is new or modified, does not match
    the pattern and does not parse; an empty agenda; an empty list of
    tags.  Each test is on the document as it entered the hook, and the
    hook passes exactly when none of them holds. *)
Theorem hook_error_priority (eng : Engine) (d : Doc) :
  snd (pre_save eng d)
  = (if date_refused eng d
     then Some "Date must be in a valid format (YYYY-MM-DD or ISO string)"%string
     else if time_refused eng d
     then Some "Time must be in HH:MM format"%string
     else if (List.length (agenda (fields d)) =? 0)%nat
     then Some "Agenda cannot be empty"%string
     else if (List.length (tags (fields d)) =? 0)%nat
     then Some "Tags cannot be empty"%string
     else None)
  /\ (snd (pre_save eng d) = None
      <-> date_refused eng d = false /\ time_refused eng d = false
          /\ agenda (fields d) <> [] /\ tags (fields d) <> []).
Proof.
  split; [apply pre_save_snd|].
  rewrite pre_save_snd.
  destruct (date_refused eng d), (time_refused eng d),
    (agenda (fields d)), (tags (fields d)); simpl;
    (split; [intros E; try discriminate E; repeat split; discriminate
            | intros [E1 [E2 [E3 E4]]]; congruence]).
Qed.

(** *** Running the hook again *)

Lemma pair_of {A B : Type} (p : A * B) (a : A) (b : B) :
  fst p = a -> snd p = b -> p = (a, b).
Proof. destruct p. simpl. congruence. Qed.

Lemma slug_step_fixed (eng : Engine) (d : Doc) :
  (isNew d || isModified d "title" = true ->
   slug (fields d) = toLowerCase eng (slugify eng (title (fields d)))) ->
  slug_step eng d = (d, None).
Proof.
  intros H. unfold slug_step, assign_slug.
  destruct (isNew d || isModified d "title"); [|reflexivity].
  rewrite <- H by reflexivity. rewrite put_slug_same. reflexivity.
Qed.

Lemma date_step_fixed (eng : Engine) (d : Doc) :
  (isNew d || isModified d "date" = true ->
   exists t, (Z.abs t <= maxTimeValue)%Z
             /\ date (fields d) = iso_date_text t) ->
  date_step eng d = (d, None).
Proof.
  intros H. unfold date_step, date_try.
  destruct (isNew d || isModified d "date"); [|reflexivity].
  destruct (H eq_refl) as (t & Ht & E).
  rewrite E, Date_parse_iso_date_text by assumption.
  rewrite toISOString_split, iso_date_text_day, <- E, assign_date_same.
  reflexivity.
Qed.

Lemma time_step_fixed (eng : Engine) (d : Doc) :
  (isNew d || isModified d "time" = true ->
   test timeRegex (time (fields d)) = true) ->
  time_step eng d = (d, None).
Proof.
  intros H. unfold time_step.
  destruct (isNew d || isModified d "time"); [|reflexivity].
  rewrite H by reflexivity. reflexivity.
Qed.

(** What the steps have stored when they pass. *)
Lemma slug_step_stored (eng : Engine) (d : Doc) :
  isNew d || isModified d "title" = true ->
  slug (fields (fst (slug_step eng d)))
  = toLowerCase eng (slugify eng (title (fields d))).
Proof. intros H. unfold slug_step. rewrite H. reflexivity. Qed.

Lemma date_step_stored (eng : Engine) (d : Doc) :
  legacy_in_range eng ->
  isNew d || isModified d "date" = true ->
  snd (date_step eng d) = None ->
  exists t, (Z.abs t <= maxTimeValue)%Z
            /\ date (fields (fst (date_step eng d))) = iso_date_text t.
Proof.
  intros Hl Hd. unfold date_step, date_try. rewrite Hd.
  destruct (Date_parse eng (date (fields d))) as [t|] eqn:Ep;
    [|discriminate].
  intros _. exists t. split; [exact (Date_parse_range _ Hl Ep)|].
  cbn [fst]. rewrite toISOString_split. reflexivity.
Qed.

Lemma time_step_stored (eng : Engine) (d : Doc) :
  isNew d || isModified d "time" = true ->
  snd (time_step eng d) = None ->
  test timeRegex (time (fields (fst (time_step eng d)))) = true.
Proof.
  intros Hd Hok.
  destruct (time_step_cases eng d Hd)
    as [[Hr E] | [(_ & _ & E) | (t & _ & _ & E)]];
    rewrite E in *; cbn [fst snd] in *.
  - exact Hr.
  - discriminate.
  - apply timeRegex_hhmm; [apply hour_of_range | apply min_of_range].
Qed.

(** X12: the hook is idempotent: when it passes, running it again on the
    document it has left, with the same fields marked as modified, passes
    and changes nothing. *)
Theorem hook_idempotent (eng : Engine) (d : Doc) :
  legacy_in_range eng ->
  snd (pre_save eng d) = None ->
  pre_save eng (fst (pre_save eng d)) = (fst (pre_save eng d), None).
Proof.
  intros Hl Hok.
  pose proof (pre_save_snd eng d) as Hp. rewrite Hok in Hp.
  destruct (date_refused eng d) eqn:Edr; [discriminate|].
  destruct (time_refused eng d) eqn:Etr; [discriminate|].
  (* the steps of the first run *)
  destruct (slug_step_shape eng d) as [v1 E1].
  set (d1 := put_slug v1 d) in *.
  assert (S2 : snd (date_step eng d1) = None).
  { rewrite date_step_snd.
    change (date_refused eng d1) with (date_refused eng d).
    rewrite Edr. reflexivity. }
  destruct (date_step_shape eng d1) as [v2 F2].
  set (d2 := assign_date v2 d1) in *.
  assert (S3 : snd (time_step eng d2) = None).
  { rewrite time_step_snd.
    change (time_refused eng d2) with (time_refused eng d).
    rewrite Etr. reflexivity. }
  destruct (time_step_shape eng d2) as [v3 F3].
  set (d3 := assign_time v3 d2) in *.
  assert (E2 : date_step eng d1 = (d2, None)).
  { apply pair_of; assumption. }
  assert (E3 : time_step eng d2 = (d3, None)).
  { apply pair_of; assumption. }
  assert (G : snd (and_then agenda_guard tags_guard d3) = None).
  { rewrite guards_snd.
    change (agenda (fields d3)) with (agenda (fields d)).
    change (tags (fields d3)) with (tags (fields d)). symmetry. exact Hp. }
  assert (E4 : and_then agenda_guard tags_guard d3 = (d3, None)).
  { apply pair_of; [apply guards_fields | exact G]. }
  assert (E : pre_save eng d = (d3, None)).
  { unfold pre_save.
    rewrite (@and_then_ok _ _ _ _ E1), (@and_then_ok _ _ _ _ E2).
    rewrite (@and_then_ok _ _ _ _ E3). exact E4. }
  rewrite E. cbn [fst].
  (* the steps of the second run *)
  assert (R1 : slug_step eng d3 = (d3, None)).
  { apply slug_step_fixed. intros Hf.
    change (slug (fields d3)) with v1.
    change (title (fields d3)) with (title (fields d)).
    change (isNew d3 || isModified d3 "title")
      with (isNew d || isModified d "title") in Hf.
    pose proof (@slug_step_stored eng d Hf) as Hs.
    rewrite E1 in Hs. exact Hs. }
  assert (R2 : date_step eng d3 = (d3, None)).
  { apply date_step_fixed. intros Hf.
    change (date (fields d3)) with v2.
    change (isNew d3 || isModified d3 "date")
      with (isNew d1 || isModified d1 "date") in Hf.
    destruct (@date_step_stored eng d1 Hl Hf S2) as (t & Ht & Et).
    rewrite F2 in Et. exists t. split; [exact Ht | exact Et]. }
  assert (R3 : time_step eng d3 = (d3, None)).
  { apply time_step_fixed. intros Hf.
    change (isNew d3 || isModified d3 "time")
      with (isNew d2 || isModified d2 "time") in Hf.
    pose proof (@time_step_stored eng d2 Hf S3) as Ht.
    rewrite F3 in Ht. exact Ht. }
  unfold pre_save.
  rewrite (@and_then_ok _ _ _ _ R1), (@and_then_ok _ _ _ _ R2).
  rewrite (@and_then_ok _ _ _ _ R3). exact E4.
Qed.

Lemma hook_idempotent_witness :
  let d := new_event (lit "  Tech Conference: 2024!  ")
                     (lit "2024-12-15T10:30:00.000Z") (lit "09:05:30") in
  pre_save utc_engine d
  = (assign_time (lit "09:05")
       (assign_date (lit "2024-12-15")
          (put_slug (lit "tech-conference-2024") d)), None)
  /\ pre_save utc_engine (fst (pre_save utc_engine d))
     = (fst (pre_save utc_engine d), None).
Proof.
  intros d. split; [reflexivity|].
  apply (@hook_idempotent utc_engine d utc_engine_legacy_in_range).
  reflexivity.
Defined.

End HookFacts.

(** * Bookings: the outcome of a save and the stored e-mail *)

Module BookingMore.
Import JS BookingModel JSFacts BookingFacts.

Lemma trim_twice (s : jsstring) : trim (trim s) = trim s.
Proof.
  unfold trim.
  rewrite (@drop_while_id is_space
             (drop_while_end is_space (drop_while is_space s))).
  - apply drop_while_end_id, drop_while_end_ends.
  - apply drop_while_end_starts, drop_while_starts.
Qed.

Lemma trim_starts (s : jsstring) : starts_with is_space (trim s) = false.
Proof. apply drop_while_end_starts, drop_while_starts. Qed.

Lemma trim_ends (s : jsstring) : ends_with is_space (trim s) = false.
Proof. apply drop_while_end_ends. Qed.

Lemma Forall_trim (P : N -> Prop) (s : jsstring) :
  Forall P s -> Forall P (trim s).
Proof.
  intros H. apply Forall_drop_while_end, Forall_drop_while, H.
Qed.

Lemma ascii_lower_lower (c : N) :
  is_upper c = false -> ascii_lower c = c.
Proof. unfold ascii_lower. intros ->. reflexivity. Qed.

Lemma map_ascii_lower_id (s : jsstring) :
  Forall (fun c => is_upper c = false) s -> map ascii_lower s = s.
Proof.
  induction 1 as [|c s Hc _ IH]; simpl; [reflexivity|].
  rewrite ascii_lower_lower by assumption. rewrite IH. reflexivity.
Qed.

Lemma ascii_lower_ascii (c : N) :
  is_ascii c = true -> is_ascii (ascii_lower c) = true.
Proof.
  unfold ascii_lower, is_ascii, is_upper, between. intros H.
  destruct ((65 <=? c)%N && (c <=? 90)%N) eqn:E; [|exact H].
  apply andb_true_iff in E as [E1 E2].
  apply N.leb_le in E1, E2. apply N.ltb_lt. lia.
Qed.

Lemma save_run (d : Doc) (st : Store) :
  save d st =
  match validate_email (email (fields d)) with
  | Some message => ([], inr (Some message))
  | None =>
      if isNew d || isModified d "eventId" then
        match Event_exists st (eventId (fields d)) with
        | Found =>
            ([ExistsEvent (eventId (fields d)); InsertBooking (fields d)],
             inr None)
        | Absent =>
            ([ExistsEvent (eventId (fields d))],
             inr (Some ("Event with ID " ++ eventId (fields d)
                        ++ " does not exist")%string))
        | Rejects (ThrownError message) =>
            ([ExistsEvent (eventId (fields d))],
             inr (Some ("Failed to validate event reference: "
                        ++ message)%string))
        | Rejects ThrownValue =>
            ([ExistsEvent (eventId (fields d))],
             inr (Some "Failed to validate event reference"%string))
        end
      else ([InsertBooking (fields d)], inr None)
  end.
Proof.
  destruct (validate_email (email (fields d))) as [message|] eqn:Ev.
  - unfold save. rewrite Ev. reflexivity.
  - rewrite save_after_hook by assumption. rewrite pre_save_run.
    destruct (isNew d || isModified d "eventId"); [|reflexivity].
    destruct (Event_exists st (eventId (fields d))) as [| |[message|]];
      reflexivity.
Qed.


(** X14: under an engine whose lower-casing is that of ASCII, the e-mail
    of a new booking made from ASCII text is in canonical form: it has no
    capital letter and no white space at either end, and assigning it
    again leaves it as it is. *)
Theorem stored_email_canonical (eng : Engine) (raw : jsstring)
    (Hok : lowercase_ok eng)
    (Hascii : Forall (fun c => is_ascii c = true) raw) :
  let e := set_email eng raw in
  set_email eng e = e
  /\ Forall (fun c => is_upper c = false) e
  /\ starts_with is_space e = false
  /\ ends_with is_space e = false.
Proof.
  intros e. destruct Hok as [Hup Hlow].
  assert (Hu : Forall (fun c => is_upper c = false) e).
  { apply Forall_trim, Hup. }
  assert (Ha : Forall (fun c => is_ascii c = true) e).
  { unfold e, set_email. apply Forall_trim.
    rewrite (Hlow raw Hascii). apply Forall_map.
    eapply Forall_impl; [|exact Hascii].
    intros c. apply ascii_lower_ascii. }
  split; [|split; [exact Hu | split; [apply trim_starts | apply trim_ends]]].
  unfold set_email at 1. rewrite (Hlow e Ha).
  rewrite map_ascii_lower_id by exact Hu.
  apply trim_twice.
Qed.

Lemma stored_email_canonical_witness :
  let e := set_email utc_engine (lit "  Ada@Example.COM ") in
  set_email utc_engine e = e
  /\ Forall (fun c => is_upper c = false) e
  /\ starts_with is_space e = false
  /\ ends_with is_space e = false.
Proof.
  apply (@stored_email_canonical utc_engine (lit "  Ada@Example.COM ")
           EventFacts.utc_engine_lowercase_ok).
  repeat constructor.
Defined.

End BookingMore.

(** * The connection cache: runs without failures, results, disconnect *)

Module MongooseMore.
Import JS MongooseLib MongooseFacts.

(** ** Waiters *)

Lemma take_waiter_Forall (Q : nat * PromiseId -> Prop) (c : nat) :
  forall (w : list (nat * PromiseId)) p rest,
    Forall Q w -> take_waiter c w = Some (p, rest) ->
    Q (c, p) /\ Forall Q rest.
Proof.
  induction w as [|[c' q] w IH]; simpl; intros p rest HQ H; [discriminate|].
  inversion HQ as [|x l Hx Hl]; subst.
  destruct (c' =? c)%nat eqn:E.
  - apply Nat.eqb_eq in E. subst c'. injection H as <- <-. auto.
  - destruct (take_waiter c w) as [[q' r]|] eqn:T; [|discriminate].
    injection H as <- <-.
    destruct (IH q' r Hl eq_refl) as [H1 H2]. split; auto.
Qed.

(** ** Runs in which no attempt fails *)

Lemma calm_step (a : action) (s s' : State) :
  calm s ->
  failure_free [a] = true ->
  do_action a s = Some s' ->
  calm s'.
Proof.
  intros J Hff.
  destruct a as [c | p r | c]; simpl.
  - intros [= <-]. unfold connectToDatabase.
    destruct J as [(P & C & W & D) | [(P & C & W & D) | (m & P & Cp & Cc & W & D)]].
    + rewrite C, P, W, D. simpl. right. left. repeat split.
      repeat constructor.
    + rewrite C, P, D. simpl. right. left. repeat split.
      apply Forall_app. split; [exact W | repeat constructor].
    + destruct Cc as [Cc | Cc]; rewrite Cc.
      * rewrite Cp. right. right. exists m. simpl. rewrite Cc, Cp.
        repeat split; auto.
        apply Forall_app. split; [exact W | repeat constructor].
      * right. right. exists m. simpl. rewrite Cc, Cp.
        repeat split; auto.
        apply Forall_app. split; [exact D | repeat constructor].
  - destruct r as [m | e]; [|discriminate Hff].
    unfold settle.
    destruct J as [(P & C & W & D) | [(P & C & W & D) | (m' & P & Cp & Cc & W & D)]];
      rewrite P.
    + destruct p; discriminate.
    + destruct p as [|[|p]]; simpl; try discriminate.
      intros [= <-]. right. right. exists m. simpl. rewrite C, D. simpl.
      repeat split; auto.
    + destruct p as [|[|p]]; discriminate.
  - unfold connectToDatabase_resume.
    destruct (take_waiter c (awaiting s)) as [[p rest]|] eqn:T;
      [|discriminate].
    destruct J as [(P & C & W & D) | [(P & C & W & D) | (m & P & Cp & Cc & W & D)]].
    + rewrite W in T. discriminate.
    + destruct (@take_waiter_Forall _ _ _ _ _ W T) as [Hp _]. simpl in Hp. subst p.
      rewrite P. discriminate.
    + destruct (@take_waiter_Forall _ _ _ _ _ W T) as [Hp Hr]. simpl in Hp. subst p.
      rewrite P. simpl. intros [= <-]. right. right. exists m. simpl.
      repeat split; auto.
      apply Forall_app. split; [exact D | repeat constructor].
Qed.

Lemma calm_run (tr : list action) :
  forall s s', calm s -> failure_free tr = true -> run tr s = Some s' ->
               calm s'.
Proof.
  induction tr as [|a tr IH]; simpl; intros s s' J Hff H.
  - injection H as <-. exact J.
  - destruct (do_action a s) as [s1|] eqn:E; [|discriminate].
    unfold failure_free in Hff. simpl in Hff.
    apply andb_true_iff in Hff as [Ha Htr].
    apply (IH s1 s'); auto.
    eapply calm_step; eauto.
    unfold failure_free. simpl. rewrite Ha. reflexivity.
Qed.

Lemma calm_initial : calm initial.
Proof. left. repeat split. Qed.

(** X15: as long as no attempt fails, one connection serves every call:
    at most one attempt is ever started, no call throws, and all the
    calls that have returned hold the same instance, the one the
    attempt produced. *)
Theorem failure_free_one_connection (tr : list action) (s : State)
    (Hrun : run tr initial = Some s)
    (Hff : failure_free tr = true) :
  (List.length (promises s) <= 1)%nat
  /\ (completed s <> [] ->
      exists m,
        promises s = [Settled (Fulfilled m)]
        /\ forall c r, In (c, r) (completed s) -> r = Fulfilled m).
Proof.
  pose proof (calm_run tr calm_initial Hff Hrun) as J.
  destruct J as [(P & C & W & D) | [(P & C & W & D) | (m & P & Cp & Cc & W & D)]].
  - rewrite P, D. simpl. split; [lia|]. intros H. congruence.
  - rewrite P, D. simpl. split; [lia|]. intros H. congruence.
  - rewrite P. simpl. split; [lia|]. intros _. exists m.
    split; [reflexivity|]. intros c r Hin.
    rewrite Forall_forall in D. exact (D (c, r) Hin).
Qed.

Lemma failure_free_one_connection_witness :
  exists m,
    promises {| cached := {| conn := Some 7%nat; promise := Some 0%nat |};
                promises := [Settled (Fulfilled 7%nat)];
                awaiting := [];
                completed := [(1, Fulfilled 7); (2, Fulfilled 7);
                              (0, Fulfilled 7)]%nat |}
    = [Settled (Fulfilled m)].
Proof.
  destruct (@failure_free_one_connection
              [Call 0; Call 1; Settle 0 (Fulfilled 7); Resume 1; Call 2;
               Resume 0]%nat
              _ eq_refl eq_refl) as [_ H].
  destruct (H ltac:(discriminate)) as [m [Hm _]].
  exists m. exact Hm.
Defined.

(** ** No late resume, one attempt in flight *)

Lemma resumes_late_spec (a : action) (s : State) :
  resumes_late a s = false -> ~ late_resume a s.
Proof.
  destruct a as [c | p r | c]; simpl; auto.
  intros H (p & rest & e & T & Hp & Hc). rewrite T, Hp in H.
  destruct (promise (cached s)); [discriminate | congruence].
Qed.

Lemma timely_single_attempt (tr : list action) :
  forall s s', single_attempt s -> run tr s = Some s' ->
               timely tr s = true -> single_attempt s'.
Proof.
  induction tr as [|a tr IH]; simpl; intros s s' I H Ht.
  - injection H as <-. exact I.
  - destruct (do_action a s) as [s1|] eqn:E; [|discriminate].
    apply andb_true_iff in Ht as [Ha Htr].
    apply negb_true_iff in Ha.
    apply (IH s1 s'); auto.
    eapply single_attempt_step; eauto.
    apply resumes_late_spec. exact Ha.
Qed.

Lemma single_attempt_initial : single_attempt initial.
Proof. intros q H. destruct q; discriminate. Qed.

(** X16: in a run in which no caller resumes late (none resumes with the
    failure of its attempt after [cached.promise] has been set again), at
    most one connection attempt is in flight at any time, and it is the
    one in [cached.promise]. *)
Theorem one_attempt_without_late_resume (tr : list action) (s : State)
    (Hrun : run tr initial = Some s)
    (Ht : timely tr initial = true) :
  (in_flight s <= 1)%nat
  /\ forall q, nth_error (promises s) q = Some Pending ->
               promise (cached s) = Some q.
Proof.
  pose proof (timely_single_attempt tr single_attempt_initial Hrun Ht) as I.
  split; [apply single_attempt_in_flight; exact I | exact I].
Qed.

Lemma one_attempt_without_late_resume_witness :
  (in_flight {| cached := {| conn := None; promise := Some 1%nat |};
                promises := [Settled (Rejected "timeout"); Pending];
                awaiting := [(2, 1)]%nat;
                completed := [(0, Rejected "timeout");
                              (1, Rejected "timeout")]%nat |} <= 1)%nat.
Proof.
  apply (@one_attempt_without_late_resume
           [Call 0; Call 1; Settle 0 (Rejected "timeout"); Resume 0;
            Resume 1; Call 2]%nat _ eq_refl eq_refl).
Defined.

(** ** Results come from attempts *)

Lemma grounded_step (a : action) (s s' : State) :
  grounded s -> do_action a s = Some s' -> grounded s'.
Proof.
  intros [K1 K2] H.
  assert (St : forall p r, nth_error (promises s) p = Some (Settled r) ->
                           nth_error (promises s') p = Some (Settled r)).
  { intros p r. eapply settled_stable; eauto. }
  destruct a as [c | p r | c]; simpl in H.
  - injection H as <-. unfold connectToDatabase in *.
    destruct (conn (cached s)) as [m|] eqn:Ec.
    + split; simpl.
      * rewrite Ec. exact K1.
      * intros c' r Hin. apply in_app_iff in Hin as [Hin | [Hin | []]].
        -- eauto.
        -- injection Hin as <- <-. apply K1. reflexivity.
    + destruct (promise (cached s)) as [p|] eqn:Ep; split; simpl.
      * rewrite Ec. discriminate.
      * intros c' r Hin. destruct (K2 c' r Hin) as [q Hq].
        exists q. apply (St q r Hq).
      * discriminate.
      * intros c' r Hin. destruct (K2 c' r Hin) as [q Hq].
        exists q. apply (St q r Hq).
  - assert (Ec : conn (cached s') = conn (cached s)).
    { unfold settle in H.
      destruct (nth_error (promises s) p) as [[|x]|]; try discriminate.
      injection H as <-. destruct r; reflexivity. }
    assert (Ed : completed s' = completed s).
    { unfold settle in H.
      destruct (nth_error (promises s) p) as [[|x]|]; try discriminate.
      injection H as <-. reflexivity. }
    split.
    + intros m Hm. rewrite Ec in Hm. destruct (K1 m Hm) as [q Hq].
      exists q. apply (St q _ Hq).
    + intros c r' Hin. rewrite Ed in Hin. destruct (K2 c r' Hin) as [q Hq].
      exists q. apply (St q _ Hq).
  - destruct (resume_outcome _ _ H) as (p & rest & r & T & Hp & Hd & Hps & Hc).
    split.
    + intros m Hm. rewrite Hc in Hm. destruct r as [m' | e]; simpl in Hm.
      * injection Hm as ->. exists p. rewrite Hps. exact Hp.
      * discriminate.
    + intros c' r' Hin. rewrite Hd in Hin.
      apply in_app_iff in Hin as [Hin | [Hin | []]].
      * destruct (K2 c' r' Hin) as [q Hq]. exists q. apply (St q _ Hq).
      * injection Hin as <- <-. exists p. rewrite Hps. exact Hp.
Qed.

Lemma grounded_clear (s : State) : grounded s -> grounded (clear_cache s).
Proof.
  intros [K1 K2]. split; simpl; [discriminate | exact K2].
Qed.

Lemma grounded_event (e : event) (a a' : App) :
  grounded (db a) -> do_event e a = Some a' -> grounded (db a').
Proof.
  intros K. destruct e as [x | k | k | k]; simpl.
  - destruct (do_action x (db a)) as [s'|] eqn:E; [|discriminate].
    intros [= <-]. simpl. eapply grounded_step; eauto.
  - intros [= <-]. unfold disconnect.
    destruct (conn (cached (db a))); exact K.
  - unfold disconnect_resume.
    destruct (remove_first k (closing a)); [|discriminate].
    intros [= <-]. simpl. apply grounded_clear, K.
  - unfold disconnect_resume.
    destruct (remove_first k (closing a)); [|discriminate].
    intros [= <-]. exact K.
Qed.

Lemma grounded_run (tr : list event) :
  forall a a', grounded (db a) -> run_app tr a = Some a' -> grounded (db a').
Proof.
  induction tr as [|e tr IH]; simpl; intros a a' K H.
  - injection H as <-. exact K.
  - destruct (do_event e a) as [a1|] eqn:E; [|discriminate].
    apply (IH a1 a'); auto. eapply grounded_event; eauto.
Qed.

Lemma grounded_initial : grounded initial.
Proof. split; simpl; [discriminate | intros c r []]. Qed.

(** X17: whatever the calls, the settlings and the disconnects, a call of
    [connectToDatabase] returns only an instance that one of the
    attempts produced and throws only the error one of them failed with,
    and the cache never holds an instance that no attempt produced. *)
Theorem results_come_from_attempts (tr : list event) (a : App)
    (Hrun : run_app tr (app_of initial) = Some a) :
  (forall c r, In (c, r) (completed (db a)) ->
               exists p, nth_error (promises (db a)) p = Some (Settled r))
  /\ (forall m, conn (cached (db a)) = Some m ->
                exists p, nth_error (promises (db a)) p
                          = Some (Settled (Fulfilled m))).
Proof.
  assert (K : grounded (db a)).
  { eapply grounded_run; [|exact Hrun]. exact grounded_initial. }
  destruct K as [K1 K2]. split; assumption.
Qed.

Lemma results_come_from_attempts_witness :
  exists p, nth_error [Settled (Fulfilled 7%nat)] p
            = Some (Settled (Fulfilled 7%nat)).
Proof.
  exact (proj1 (@results_come_from_attempts
                  [Db (Call 0); Db (Settle 0 (Fulfilled 7)); Db (Resume 0);
                   Disconnect 1; Disconnected 1]%nat _ eq_refl)
           0%nat (Fulfilled 7%nat) (or_introl eq_refl)).
Defined.

(** ** disconnect *)

(** X18: without a cached connection [disconnect] does nothing at all,
    even when an attempt is pending: [mongoose.disconnect()] is not
    called and the pending attempt stays in the cache.  With a cached
    connection it calls [mongoose.disconnect()] once and, when that has
    resolved, empties the cache, so that the next call of
    [connectToDatabase] starts a new attempt; when it has rejected the
    cache is left as it was. *)
Theorem disconnect_behaviour (k c : nat) (a : App) :
  (conn (cached (db a)) = None -> disconnect k a = a)
  /\ (forall m, conn (cached (db a)) = Some m ->
      disconnects (disconnect k a) = S (disconnects a)
      /\ db (disconnect k a) = db a
      /\ (closing a = [] ->
          (exists a',
              run_app [Disconnect k; Disconnected k; Db (Call c)] a = Some a'
              /\ closing a' = []
              /\ conn (cached (db a')) = None
              /\ promise (cached (db a'))
                 = Some (List.length (promises (db a)))
              /\ promises (db a') = promises (db a) ++ [Pending])
          /\ run_app [Disconnect k; DisconnectFailed k] a
             = Some {| db := db a; closing := [];
                       disconnects := S (disconnects a) |})).
Proof.
  split.
  - unfold disconnect. intros ->. reflexivity.
  - intros m Hm. unfold disconnect. rewrite Hm. simpl.
    split; [reflexivity | split; [reflexivity | intros Hc; split]].
    + simpl. unfold disconnect, disconnect_resume.
      rewrite Hm, Hc. simpl. rewrite Nat.eqb_refl. simpl.
      eexists. split; [reflexivity|]. simpl. repeat split.
    + simpl. unfold disconnect, disconnect_resume.
      rewrite Hm, Hc. simpl. rewrite Nat.eqb_refl. reflexivity.
Qed.

Lemma disconnect_behaviour_witness :
  disconnects (disconnect 1
                 (app_of {| cached := {| conn := Some 7%nat;
                                         promise := Some 0%nat |};
                            promises := [Settled (Fulfilled 7%nat)];
                            awaiting := []; completed := [] |}))
  = 1%nat.
Proof.
  exact (proj1 (proj2 (@disconnect_behaviour 1 2
           (app_of {| cached := {| conn := Some 7%nat;
                                   promise := Some 0%nat |};
                      promises := [Settled (Fulfilled 7%nat)];
                      awaiting := []; completed := [] |})) 7%nat eq_refl)).
Defined.

(** X19: a [disconnect] that resumes clears [cached.promise] whatever it
    holds by then.  From any state with a cached connection and no
    disconnect under way, two overlapping disconnects with a call of
    [connectToDatabase] between their resumptions leave the attempt of
    that call pending outside the cache, and the next call starts a
    second one: two attempts are in flight more than before. *)
Theorem overlapping_disconnects_orphan_attempt (a : App) (m : Mongoose)
    (k1 k2 c1 c2 : nat)
    (Hconn : conn (cached (db a)) = Some m)
    (Hclosing : closing a = []) :
  exists a',
    run_app [Disconnect k1; Disconnect k2; Disconnected k1; Db (Call c1);
             Disconnected k2; Db (Call c2)] a = Some a'
    /\ promises (db a') = promises (db a) ++ [Pending; Pending]
    /\ in_flight (db a') = (in_flight (db a) + 2)%nat
    /\ disconnects a' = (disconnects a + 2)%nat.
Proof.
  destruct a as [s cl n]. simpl in Hconn, Hclosing. subst cl.
  unfold run_app, do_event, disconnect, disconnect_resume.
  repeat (rewrite ?Hconn, ?Nat.eqb_refl; simpl).
  eexists. split; [reflexivity|]. simpl.
  rewrite <- app_assoc. simpl. split; [reflexivity|]. split; [|lia].
  unfold in_flight. simpl. rewrite <- app_assoc, filter_app, length_app.
  reflexivity.
Qed.

Lemma overlapping_disconnects_orphan_attempt_witness :
  exists a',
    run_app [Disconnect 1; Disconnect 2; Disconnected 1; Db (Call 3);
             Disconnected 2; Db (Call 4)]%nat
      (app_of {| cached := {| conn := Some 7%nat; promise := Some 0%nat |};
                 promises := [Settled (Fulfilled 7%nat)];
                 awaiting := []; completed := [] |}) = Some a'
    /\ promises (db a')
       = [Settled (Fulfilled 7%nat)] ++ [Pending; Pending]
    /\ in_flight (db a') = (0 + 2)%nat
    /\ disconnects a' = (0 + 2)%nat.
Proof.
  exact (@overlapping_disconnects_orphan_attempt
           (app_of {| cached := {| conn := Some 7%nat;
                                   promise := Some 0%nat |};
                      promises := [Settled (Fulfilled 7%nat)];
                      awaiting := []; completed := [] |})
           7%nat 1%nat 2%nat 3%nat 4%nat eq_refl eq_refl).
Defined.

(** ** isConnected and getConnectionState *)

(** X20: [isConnected] holds exactly when [getConnectionState] says
    ["connected"]; the state is named for the ready states 0 to 3, and
    every other ready state is ["unknown"]. *)
Theorem connection_state_names (readyState : Z) :
  (isConnected readyState = true
   <-> getConnectionState readyState = "connected"%string)
  /\ (getConnectionState readyState = "unknown"%string
      <-> (readyState < 0 \/ 3 < readyState)%Z)
  /\ (In (getConnectionState readyState)
         ["disconnected"; "connected"; "connecting"; "disconnecting";
          "unknown"]%string).
Proof.
  unfold isConnected, getConnectionState, states.
  destruct (readyState =? 0)%Z eqn:E0;
    [|destruct (readyState =? 1)%Z eqn:E1;
      [|destruct (readyState =? 2)%Z eqn:E2;
        [|destruct (readyState =? 3)%Z eqn:E3]]];
    rewrite ?Z.eqb_eq, ?Z.eqb_neq in *; subst; simpl;
    (split; [split; intros H; first [discriminate H | lia | reflexivity]
            |split; [split; intros H; first [discriminate H | lia | reflexivity]
                    | tauto]]).
Qed.

End MongooseMore.
